(** * The chess game-state reducer (game/state.ts)

    A shallow embedding of [getBoard], [getCompleteFlag], [createChessState]
    and [chessReducer], and the properties of the state machine they form.

    Modelling conventions.
    - A JS [number] is a rational ([Q]); timestamps are the millisecond
      values the provider passes in, remaining time is in seconds.
    - A [Record<string, string>] is a [gmap string string].  The reducer
      reads the identity map only through lookups, so a key bound to
      [undefined] and a missing key are the same map here.
    - An optional field ([set?], [taken?], [complete?], [moves?]) is an
      [option]; JS truthiness is written out ([truthy_num], [truthy_str]).
    - The rules engine (chess.js) is an external, mutable handle.  It is an
      interface ([RulesEngine]) whose operations return the new handle, and
      the reducer threads the handle through every transition.
    - The reducer updates the state object it is given and returns that
      object or a shallow copy of it.  States are values here: a transition
      maps the state as it was when the call began to the state returned.
    - [console.error] diagnostics are not part of the state and are left
      out. *)

From Stdlib Require Import QArith Qabs Lqa Ascii String.
From stdpp Require Import gmap strings list fin_maps pretty.

Local Open Scope string_scope.
Local Open Scope list_scope.

(** ** Data model *)

(** [Color] of chess.js: ['w'] and ['b']. *)
Inductive Color := White | Black.

(** [PieceSymbol] of chess.js: ['p' 'n' 'b' 'r' 'q' 'k']. *)
Inductive PieceSymbol := Pawn | Knight | Bishop | Rook | Queen | King.

#[global] Instance Color_eq_dec : EqDecision Color.
Proof. solve_decision. Defined.
#[global] Instance PieceSymbol_eq_dec : EqDecision PieceSymbol.
Proof. solve_decision. Defined.

(** A [Square] is its algebraic name, e.g. ["e4"]. *)
Definition Square := string.

(** [Record<Color, A>]. *)
Record ByColor (A : Type) := mkByColor { w : A; b : A }.
Arguments mkByColor {A} _ _.
Arguments w {A} _.
Arguments b {A} _.

#[global] Instance ByColor_eq_dec {A} `{EqDecision A} : EqDecision (ByColor A).
Proof. solve_decision. Defined.

Definition side {A} (c : Color) (r : ByColor A) : A :=
  match c with White => w r | Black => b r end.

Definition set_side {A} (c : Color) (x : A) (r : ByColor A) : ByColor A :=
  match c with
  | White => mkByColor x (b r)
  | Black => mkByColor (w r) x
  end.

(** The part of chess.js's [Move] object the reducer reads. *)
Record Move := mkMove {
  color : Color;
  from : Square;
  to : Square;
  piece : PieceSymbol;
  captured : option PieceSymbol;
  promotion : option PieceSymbol;
  flags : string
}.

(** One cell of [chess.board()]. *)
Record EngineCell := mkEngineCell {
  square : Square;
  cell_type : PieceSymbol;
  cell_color : Color
}.

(** One cell of the projected [Board]. *)
Record BoardCell := mkBoardCell {
  type : PieceSymbol;
  team : Color;
  uid : option string
}.

Definition Board := list (list (option BoardCell)).

(** [Timers] entry: [{ set?: number, time: number }]. *)
Record Timer := mkTimer { set : option Q; time : Q }.

(** [MoveUID]: [{ taken?: string }]. *)
Record MoveUID := mkMoveUID { taken : option string }.

#[global] Instance MoveUID_eq_dec : EqDecision MoveUID.
Proof. solve_decision. Defined.

Inductive PlayerType := local | bot.
Record Player := mkPlayer { name : string; player_type : PlayerType }.

Record ChessState := mkChessState {
  timers : ByColor Timer;
  moves : option (list Move);
  captured_by : ByColor (list PieceSymbol);
  board : Board;
  turn : Color;
  check : ByColor bool;
  fen : string;
  complete : option string;
  redoStack : list Move;
  pieceUids : gmap string string;
  pieceUidTracker : list MoveUID;
  paused : bool;
  players : ByColor Player
}.

(** [ChessAction | InternalChessAction]; the [chess] handle every action
    carries is the engine value threaded through [chessReducer]. *)
Inductive ChessAction :=
| move (from to : Square) (promotion : option PieceSymbol) (time : Q)
| undo (time : Q)
| redo (time : Q)
| pause (time : option Q)
| checkTimers (time : Q)
| endMove (time : Q).

(** ** JavaScript truthiness *)

(** A number is falsy when it is [undefined] or [0]. *)
Definition truthy_num (x : option Q) : bool :=
  match x with
  | Some q => negb (Qeq_bool q 0)
  | None => false
  end.

(** A string is falsy when it is [undefined] or empty. *)
Definition truthy_str (x : option string) : bool :=
  match x with
  | Some s => negb (String.eqb s EmptyString)
  | None => false
  end.

(** A piece symbol is a non-empty string: truthy when present. *)
Definition truthy_piece (x : option PieceSymbol) : bool :=
  match x with Some _ => true | None => false end.

(** [flags.indexOf(c) >= 0]. *)
Definition has_flag (c : string) (fl : string) : bool :=
  match String.index 0 c fl with Some _ => true | None => false end.

(** The template literal [`${file}${from[1]}`]: an out-of-range index reads
    [undefined], which a template prints as such. *)
Definition castle_square (file : string) (from : Square) : Square :=
  file +:+ match String.get 1 from with
           | Some c => String c EmptyString
           | None => "undefined"
           end.

(** [m[k] = v] where [v] may be [undefined]. *)
Definition assign (k : string) (v : option string)
    (m : gmap string string) : gmap string string :=
  match v with
  | Some x => <[k := x]> m
  | None => delete k m
  end.

(** [m[dst] = m[src]; delete m[src]]. *)
Definition relocate (src dst : string) (m : gmap string string) :
    gmap string string :=
  delete src (assign dst (m !! src) m).

(** [l.indexOf(x)]: [-1] when [x] does not occur. *)
Fixpoint indexOf (x : PieceSymbol) (l : list PieceSymbol) : Z :=
  match l with
  | [] => -1
  | y :: l' =>
      if decide (y = x) then 0
      else let i := indexOf x l' in if (i <? 0)%Z then -1 else (i + 1)%Z
  end.

(** [l.filter((_, i) => keep i)], the index counted from [i]. *)
Fixpoint filter_from {A} (keep : Z → bool) (i : Z) (l : list A) : list A :=
  match l with
  | [] => []
  | y :: l' =>
      if keep i then y :: filter_from keep (i + 1) l'
      else filter_from keep (i + 1) l'
  end.

(** [const index = l.indexOf(x); l.filter((_, i) => i !== index)]. *)
Definition remove_indexOf (x : PieceSymbol) (l : list PieceSymbol) :
    list PieceSymbol :=
  let index := indexOf x l in
  filter_from (fun i => negb (i =? index)%Z) 0 l.

(** ** The rules-engine boundary *)

Class RulesEngine (E : Type) := {
  chess_new : E;
  (** [chess.move({from, to, promotion})]: [None] when it throws. *)
  chess_move : E → Square → Square → option PieceSymbol → option (Move * E);
  (** [chess.undo()]: [None] when it returns [null]. *)
  chess_undo : E → option (Move * E);
  chess_turn : E → Color;
  chess_board : E → list (list (option EngineCell));
  chess_fen : E → string;
  chess_isCheck : E → bool;
  chess_isCheckmate : E → bool;
  chess_isDraw : E → bool;
  chess_isInsufficientMaterial : E → bool;
  chess_isThreefoldRepetition : E → bool
}.

(** ** The reducer *)

Section Reducer.
Context {E : Type} `{RulesEngine E}.

Definition getBoard (chess : E) (pieceUids : gmap string string) : Board :=
  map (fun row =>
         map (fun value =>
                match value with
                | Some v => Some {| type := cell_type v;
                                    team := cell_color v;
                                    uid := pieceUids !! square v |}
                | None => None
                end) row)
      (chess_board chess).

Definition CHECKMATE := "c".
Definition DRAW := "d".
Definition THREEFOLD_REPITITION := "r".
Definition INSUFFICIENT_MATERIAL := "m".
Definition OUT_OF_TIME := "t".

Definition getCompleteFlag (chess : E) (outOfTime : bool) : option string :=
  let result := EmptyString in
  let result := if outOfTime then result +:+ OUT_OF_TIME else result in
  let result :=
    if chess_isCheckmate chess then result +:+ CHECKMATE else result in
  let result := if chess_isDraw chess then result +:+ DRAW else result in
  let result :=
    if chess_isInsufficientMaterial chess
    then result +:+ INSUFFICIENT_MATERIAL else result in
  let result :=
    if chess_isThreefoldRepetition chess
    then result +:+ THREEFOLD_REPITITION else result in
  if Nat.eqb (String.length result) 0 then None else Some result.

(** [chess.board().flat().forEach((key, i) => ...)]. *)
Definition initial_uids (chess : E) : gmap string string :=
  foldl (fun m '(i, key) =>
           match key with
           | None => m
           | Some c => <[square c := pretty (i : nat)]> m
           end)
        ∅
        (imap (fun i key => (i, key)) (concat (chess_board chess))).

Definition createChessState (length : Q) (players : ByColor Player) :
    ChessState :=
  let chess := chess_new in
  let pieceUids := initial_uids chess in
  {| board := getBoard chess pieceUids;
     timers := mkByColor (mkTimer None (length * 60))
                         (mkTimer None (length * 60));
     moves := Some [];
     captured_by := mkByColor [] [];
     turn := White;
     check := mkByColor false false;
     fen := chess_fen chess;
     complete := None;
     redoStack := [];
     pieceUids := pieceUids;
     pieceUidTracker := [];
     paused := false;
     players := players |}.

(** Field updates ([state.f = v] on the draft). *)
Definition with_timers (v : ByColor Timer) (s : ChessState) : ChessState :=
  mkChessState v (moves s) (captured_by s) (board s) (turn s) (check s)
    (fen s) (complete s) (redoStack s) (pieceUids s) (pieceUidTracker s)
    (paused s) (players s).
Definition with_complete (v : option string) (s : ChessState) : ChessState :=
  mkChessState (timers s) (moves s) (captured_by s) (board s) (turn s)
    (check s) (fen s) v (redoStack s) (pieceUids s) (pieceUidTracker s)
    (paused s) (players s).
Definition with_redoStack (v : list Move) (s : ChessState) : ChessState :=
  mkChessState (timers s) (moves s) (captured_by s) (board s) (turn s)
    (check s) (fen s) (complete s) v (pieceUids s) (pieceUidTracker s)
    (paused s) (players s).
Definition with_moves (v : option (list Move)) (s : ChessState) :
    ChessState :=
  mkChessState (timers s) v (captured_by s) (board s) (turn s) (check s)
    (fen s) (complete s) (redoStack s) (pieceUids s) (pieceUidTracker s)
    (paused s) (players s).
Definition with_captured (v : ByColor (list PieceSymbol)) (s : ChessState) :
    ChessState :=
  mkChessState (timers s) (moves s) v (board s) (turn s) (check s) (fen s)
    (complete s) (redoStack s) (pieceUids s) (pieceUidTracker s) (paused s)
    (players s).
Definition with_pieceUids (v : gmap string string) (s : ChessState) :
    ChessState :=
  mkChessState (timers s) (moves s) (captured_by s) (board s) (turn s)
    (check s) (fen s) (complete s) (redoStack s) v (pieceUidTracker s)
    (paused s) (players s).
Definition with_pieceUidTracker (v : list MoveUID) (s : ChessState) :
    ChessState :=
  mkChessState (timers s) (moves s) (captured_by s) (board s) (turn s)
    (check s) (fen s) (complete s) (redoStack s) (pieceUids s) v (paused s)
    (players s).
Definition with_view (bd : Board) (t : Color) (ck : ByColor bool)
    (s : ChessState) : ChessState :=
  mkChessState (timers s) (moves s) (captured_by s) bd t ck (fen s)
    (complete s) (redoStack s) (pieceUids s) (pieceUidTracker s) (paused s)
    (players s).

(** The clock [checkTimers] looks at. *)
Definition watched (s : ChessState) : Timer :=
  if truthy_num (set (w (timers s))) then w (timers s) else b (timers s).

(** [(now - set) / 1000]; the reducer computes it only for a clock with a
    timestamp. *)
Definition elapsed (now : Q) (t_set : option Q) : Q :=
  match t_set with
  | Some t0 => (now - t0) / 1000
  | None => 0
  end.

(** [case 'checkTimers']. *)
Definition reduce_checkTimers (s : ChessState) (now : Q) (chess : E) :
    ChessState :=
  let t := watched s in
  if negb (truthy_num (set t)) then s
  else if Qle_bool (time t - elapsed now (set t)) 0 then
    with_timers
      (mkByColor
         (mkTimer None (if truthy_num (set (w (timers s))) then 0
                        else time (w (timers s))))
         (mkTimer None (if truthy_num (set (b (timers s))) then 0
                        else time (b (timers s)))))
      (with_complete (getCompleteFlag chess true) s)
  else s.

(** The timer update at the head of [case 'endMove']. *)
Definition switch_timers (now : Q) (t : Color) (ts : ByColor Timer) :
    ByColor Timer :=
  match t with
  | Black =>
      mkByColor
        (mkTimer None
           (if truthy_num (set (w ts))
            then time (w ts) - elapsed now (set (w ts))
            else time (w ts)))
        (mkTimer (Some now) (time (b ts)))
  | White =>
      mkByColor
        (mkTimer (Some now) (time (w ts)))
        (mkTimer None
           (if truthy_num (set (b ts))
            then time (b ts) - elapsed now (set (b ts))
            else time (b ts)))
  end.

(** [case 'endMove']. *)
Definition reduce_endMove (s : ChessState) (now : Q) (chess : E) :
    ChessState :=
  let s := with_timers (switch_timers now (chess_turn chess) (timers s)) s in
  let t := chess_turn chess in
  let s :=
    with_view (getBoard chess (pieceUids s)) t
      (set_side t (chess_isCheck chess) (mkByColor false false)) s in
  with_complete (getCompleteFlag chess false) s.

(** The identity bookkeeping of an accepted move. *)
Definition track_move (m : Move) (uids : gmap string string) :
    gmap string string * MoveUID :=
  if truthy_piece (captured m) || has_flag "e" (flags m) then
    (relocate (from m) (to m) uids, mkMoveUID (uids !! to m))
  else if has_flag "k" (flags m) then
    (relocate (castle_square "h" (from m)) (castle_square "f" (from m))
       (relocate (from m) (to m) uids), mkMoveUID None)
  else if has_flag "q" (flags m) then
    (relocate (castle_square "a" (from m)) (castle_square "d" (from m))
       (relocate (from m) (to m) uids), mkMoveUID None)
  else
    (relocate (from m) (to m) uids, mkMoveUID None).

(** Its reversal in [case 'undo']. *)
Definition untrack_move (m : Move) (update : option MoveUID)
    (uids : gmap string string) : gmap string string :=
  if truthy_piece (captured m) || has_flag "e" (flags m) then
    let uids := assign (from m) (uids !! to m) uids in
    match update with
    | Some u =>
        if truthy_str (taken u)
        then assign (to m) (taken u) uids
        else delete (to m) uids
    | None => delete (to m) uids
    end
  else if has_flag "k" (flags m) then
    relocate (castle_square "f" (from m)) (castle_square "h" (from m))
      (relocate (to m) (from m) uids)
  else if has_flag "q" (flags m) then
    relocate (castle_square "d" (from m)) (castle_square "a" (from m))
      (relocate (to m) (from m) uids)
  else
    relocate (to m) (from m) uids.

(** [case 'move']. *)
Definition reduce_move (s : ChessState) (from to : Square)
    (promotion : option PieceSymbol) (now : Q) (chess : E) :
    ChessState * E :=
  let s := reduce_checkTimers s now chess in
  if truthy_str (complete s) then (s, chess)
  else
    let s := with_redoStack [] s in
    match chess_move chess from to promotion with
    | None => (s, chess)
    | Some (m, chess) =>
        let '(uids, tracked) := track_move m (pieceUids s) in
        let s := with_pieceUids uids s in
        let s := with_pieceUidTracker (pieceUidTracker s ++ [tracked]) s in
        let s := with_moves (Some (default [] (moves s) ++ [m])) s in
        let s :=
          match captured m with
          | Some c =>
              with_captured
                (set_side (color m) (side (color m) (captured_by s) ++ [c])
                   (captured_by s)) s
          | None => s
          end in
        (reduce_endMove s now chess, chess)
    end.

(** [case 'undo']. *)
Definition reduce_undo (s : ChessState) (now : Q) (chess : E) :
    ChessState * E :=
  let s := reduce_checkTimers s now chess in
  if truthy_str (complete s) then (s, chess)
  else
    match chess_undo chess with
    | None => (s, chess)
    | Some (m, chess) =>
        match moves s with
        | None => (s, chess)
        | Some ms =>
            let s := with_moves (Some (removelast ms)) s in
            let update := last (pieceUidTracker s) in
            let s :=
              with_pieceUidTracker (removelast (pieceUidTracker s)) s in
            let s :=
              with_pieceUids (untrack_move m update (pieceUids s)) s in
            let s :=
              match captured m with
              | Some c =>
                  with_captured
                    (set_side (color m)
                       (remove_indexOf c (side (color m) (captured_by s)))
                       (captured_by s)) s
              | None => s
              end in
            let s := with_redoStack (redoStack s ++ [m]) s in
            (reduce_endMove s now chess, chess)
        end
    end.

(** [case 'redo']. *)
Definition reduce_redo (s : ChessState) (now : Q) (chess : E) :
    ChessState * E :=
  let s := reduce_checkTimers s now chess in
  if truthy_str (complete s) then (s, chess)
  else
    match last (redoStack s) with
    | None => (s, chess)
    | Some m =>
        let redo := removelast (redoStack s) in
        let s := with_redoStack redo s in
        let '(s, chess) :=
          reduce_move s (from m) (to m) (promotion m) now chess in
        (with_redoStack redo s, chess)
    end.

Definition chessReducer (s : ChessState) (action : ChessAction) (chess : E) :
    ChessState * E :=
  match action with
  | move from to promotion now => reduce_move s from to promotion now chess
  | undo now => reduce_undo s now chess
  | redo now => reduce_redo s now chess
  | pause _ => (s, chess)
  | checkTimers now => (reduce_checkTimers s now chess, chess)
  | endMove now => (reduce_endMove s now chess, chess)
  end.

End Reducer.

(** ** A concrete rules engine

    chess.js itself is a third-party library.  [ChessJs] is an executable
    engine with the same interface, following the rules of chess (piece
    geometry, castling, en passant, promotion, check) and the flag letters
    chess.js reports ([n c b e p k q]), so that the reducer can be run on
    concrete games.  The general theorems below hold for every
    [RulesEngine]; this one supplies the concrete games. *)

Module ChessJs.
Local Open Scope Z_scope.

Definition Piece : Type := Color * PieceSymbol.

Record Position := mkPosition {
  cells : list (option Piece);  (* a8..h8, a7..h7, ..., a1..h1 *)
  to_move : Color;
  castle_k : ByColor bool;
  castle_q : ByColor bool;
  ep_square : option (Z * Z);
  half_moves : nat;
  move_number : nat
}.

Record Chess := mkChess {
  position : Position;
  history : list (Move * Position)
}.

#[global] Instance Position_eq_dec : EqDecision Position.
Proof. solve_decision. Defined.

Definition other (c : Color) : Color :=
  match c with White => Black | Black => White end.

(** Squares are (file, rank) pairs, both from 0; rank 0 is rank 1. *)
Definition on_board (f r : Z) : bool :=
  (0 <=? f) && (f <? 8) && (0 <=? r) && (r <? 8).

Definition cell_index (f r : Z) : nat := Z.to_nat ((7 - r) * 8 + f).

Definition piece_at (cs : list (option Piece)) (f r : Z) : option Piece :=
  if on_board f r then
    match cs !! cell_index f r with
    | Some (Some p) => Some p
    | _ => None
    end
  else None.

Definition put_at (cs : list (option Piece)) (f r : Z) (v : option Piece) :
    list (option Piece) :=
  <[cell_index f r := v]> cs.

Definition square_name (f r : Z) : Square :=
  String (ascii_of_nat (Z.to_nat (97 + f)))
    (String (ascii_of_nat (Z.to_nat (49 + r))) EmptyString).

Definition parse_square (s : Square) : option (Z * Z) :=
  match s with
  | String cf (String cr EmptyString) =>
      let f := Z.of_nat (nat_of_ascii cf) - 97 in
      let r := Z.of_nat (nat_of_ascii cr) - 49 in
      if on_board f r then Some (f, r) else None
  | _ => None
  end.

Definition range8 : list Z := [0; 1; 2; 3; 4; 5; 6; 7].

Definition all_squares : list (Z * Z) :=
  flat_map (fun r => map (fun f => (f, r)) range8) range8.

Definition pawn_dir (c : Color) : Z :=
  match c with White => 1 | Black => -1 end.
Definition home_rank (c : Color) : Z :=
  match c with White => 0 | Black => 7 end.
Definition pawn_rank (c : Color) : Z :=
  match c with White => 1 | Black => 6 end.

(** The [n] squares after (f, r) in direction (df, dr) are empty. *)
Fixpoint path_clear (cs : list (option Piece)) (f r df dr : Z) (n : nat) :
    bool :=
  match n with
  | O => true
  | S n' =>
      match piece_at cs (f + df) (r + dr) with
      | None => path_clear cs (f + df) (r + dr) df dr n'
      | Some _ => false
      end
  end.

(** Piece geometry, pawns apart. *)
Definition reaches (cs : list (option Piece)) (p : PieceSymbol)
    (ff fr tf tr : Z) : bool :=
  let dx := tf - ff in
  let dy := tr - fr in
  let ax := Z.abs dx in
  let ay := Z.abs dy in
  let line := (dx =? 0) || (dy =? 0) in
  let diag := ax =? ay in
  let clear (ok : bool) :=
    if ok then
      path_clear cs ff fr (Z.sgn dx) (Z.sgn dy)
        (Z.to_nat (Z.max ax ay - 1))
    else false in
  if (dx =? 0) && (dy =? 0) then false
  else
    match p with
    | Knight => ((ax =? 1) && (ay =? 2)) || ((ax =? 2) && (ay =? 1))
    | King => Z.max ax ay =? 1
    | Rook => clear line
    | Bishop => clear diag
    | Queen => clear (line || diag)
    | Pawn => false
    end.

Definition attacks (cs : list (option Piece)) (pc : Piece)
    (ff fr tf tr : Z) : bool :=
  match snd pc with
  | Pawn => (Z.abs (tf - ff) =? 1) && (tr - fr =? pawn_dir (fst pc))
  | p => reaches cs p ff fr tf tr
  end.

Definition attacked (cs : list (option Piece)) (by_side : Color)
    (tf tr : Z) : bool :=
  existsb (fun '(f, r) =>
             match piece_at cs f r with
             | Some pc =>
                 if bool_decide (fst pc = by_side)
                 then attacks cs pc f r tf tr else false
             | None => false
             end) all_squares.

Definition in_check (cs : list (option Piece)) (c : Color) : bool :=
  match find (fun '(f, r) =>
                bool_decide (piece_at cs f r = Some (c, King)))
             all_squares with
  | Some (f, r) => attacked cs (other c) f r
  | None => false
  end.

Inductive Kind :=
  Normal | Capture | BigPawn | EnPassant | KingSide | QueenSide.

Definition empty_at (cs : list (option Piece)) (f r : Z) : bool :=
  match piece_at cs f r with None => true | Some _ => false end.

(** Moves of the side to move that obey the geometry. *)
Definition pseudo (pos : Position) (ff fr tf tr : Z) : option Kind :=
  let cs := cells pos in
  let c := to_move pos in
  match piece_at cs ff fr with
  | None => None
  | Some (c', p) =>
      if negb (bool_decide (c' = c)) || negb (on_board tf tr) then None
      else
        let target := piece_at cs tf tr in
        let enemy :=
          match target with
          | Some (tc, _) => bool_decide (tc = other c)
          | None => false
          end in
        let free := empty_at cs tf tr in
        let dx := tf - ff in
        let dy := tr - fr in
        let d := pawn_dir c in
        match p with
        | Pawn =>
            if (dx =? 0) && (dy =? d) && free then Some Normal
            else if (dx =? 0) && (dy =? 2 * d) && (fr =? pawn_rank c)
                    && empty_at cs ff (fr + d) && free then Some BigPawn
            else if (Z.abs dx =? 1) && (dy =? d) then
              if enemy then Some Capture
              else if bool_decide (ep_square pos = Some (tf, tr))
              then Some EnPassant else None
            else None
        | King =>
            if reaches cs King ff fr tf tr then
              if enemy then Some Capture
              else if free then Some Normal else None
            else if (ff =? 4) && (fr =? home_rank c) && (tr =? fr) then
              if (tf =? 6) && side c (castle_k pos)
                 && empty_at cs 5 fr && empty_at cs 6 fr
              then
                if in_check cs c then None
                else if attacked cs (other c) 5 fr then None
                else Some KingSide
              else if (tf =? 2) && side c (castle_q pos)
                      && empty_at cs 1 fr && empty_at cs 2 fr
                      && empty_at cs 3 fr
              then
                if in_check cs c then None
                else if attacked cs (other c) 3 fr then None
                else Some QueenSide
              else None
            else None
        | _ =>
            if reaches cs p ff fr tf tr then
              if enemy then Some Capture
              else if free then Some Normal else None
            else None
        end
  end.

Definition apply_kind (cs : list (option Piece)) (ff fr tf tr : Z)
    (k : Kind) (placed : Piece) : list (option Piece) :=
  let cs := put_at (put_at cs ff fr None) tf tr (Some placed) in
  match k with
  | EnPassant => put_at cs tf fr None
  | KingSide => put_at (put_at cs 7 fr None) 5 fr (Some (fst placed, Rook))
  | QueenSide => put_at (put_at cs 0 fr None) 3 fr (Some (fst placed, Rook))
  | _ => cs
  end.

Definition kind_flag (k : Kind) : string :=
  match k with
  | Normal => "n" | Capture => "c" | BigPawn => "b"
  | EnPassant => "e" | KingSide => "k" | QueenSide => "q"
  end.

Definition keeps_right (c mover : Color) (p : PieceSymbol)
    (corner ff fr tf tr : Z) : bool :=
  if bool_decide (c = mover) then
    negb (bool_decide (p = King))
    && negb (bool_decide (p = Rook) && (ff =? corner)
             && (fr =? home_rank c))
  else negb ((tf =? corner) && (tr =? home_rank c)).

(** A legal move of the side to move and the position after it. *)
Definition try_move (pos : Position) (ff fr tf tr : Z)
    (promo : option PieceSymbol) : option (Move * Position) :=
  match pseudo pos ff fr tf tr, piece_at (cells pos) ff fr with
  | Some k, Some (c, p) =>
      let promotes := bool_decide (p = Pawn) && (tr =? home_rank (other c)) in
      let promoted :=
        if promotes then
          match promo with
          | Some Knight | Some Bishop | Some Rook | Some Queen => promo
          | _ => None
          end
        else None in
      if promotes && negb (truthy_piece promoted) then None
      else
        let placed := (c, default p promoted) in
        let cs := apply_kind (cells pos) ff fr tf tr k placed in
        if in_check cs c then None
        else
          let taken_piece :=
            match k with
            | Capture => snd <$> piece_at (cells pos) tf tr
            | EnPassant => Some Pawn
            | _ => None
            end in
          let right corner c' :=
            keeps_right c' c p corner ff fr tf tr in
          let resets :=
            bool_decide (p = Pawn) || truthy_piece taken_piece in
          Some
            (mkMove c (square_name ff fr) (square_name tf tr) p taken_piece
               promoted
               (kind_flag k +:+ if promotes then "p" else EmptyString),
             mkPosition cs (other c)
               (mkByColor (w (castle_k pos) && right 7 White)
                          (b (castle_k pos) && right 7 Black))
               (mkByColor (w (castle_q pos) && right 0 White)
                          (b (castle_q pos) && right 0 Black))
               (match k with
                | BigPawn => Some (ff, fr + pawn_dir c)
                | _ => None
                end)
               (if resets then O else S (half_moves pos))
               (match c with
                | Black => S (move_number pos)
                | White => move_number pos
                end))
  | _, _ => None
  end.

Definition has_legal_move (pos : Position) : bool :=
  existsb (fun '(ff, fr) =>
             match piece_at (cells pos) ff fr with
             | Some (c, _) =>
                 if bool_decide (c = to_move pos) then
                   existsb (fun '(tf, tr) =>
                              match try_move pos ff fr tf tr (Some Queen)
                              with Some _ => true | None => false end)
                           all_squares
                 else false
             | None => false
             end) all_squares.

Definition back_rank (c : Color) : list (option Piece) :=
  map (fun p => Some (c, p))
      [Rook; Knight; Bishop; Queen; King; Bishop; Knight; Rook].

Definition start_position : Position :=
  mkPosition
    (back_rank Black ++ replicate 8 (Some (Black, Pawn))
     ++ replicate 32 None
     ++ replicate 8 (Some (White, Pawn)) ++ back_rank White)
    White (mkByColor true true) (mkByColor true true) None 0 1.

Definition new : Chess := mkChess start_position [].

Definition do_move (e : Chess) (from to : Square)
    (promo : option PieceSymbol) : option (Move * Chess) :=
  match parse_square from, parse_square to with
  | Some (ff, fr), Some (tf, tr) =>
      match try_move (position e) ff fr tf tr promo with
      | Some (m, pos) =>
          Some (m, mkChess pos ((m, position e) :: history e))
      | None => None
      end
  | _, _ => None
  end.

Definition do_undo (e : Chess) : option (Move * Chess) :=
  match history e with
  | (m, pos) :: h => Some (m, mkChess pos h)
  | [] => None
  end.

Definition board_of (e : Chess) : list (list (option EngineCell)) :=
  map (fun r =>
         map (fun f =>
                match piece_at (cells (position e)) f r with
                | Some (c, p) => Some (mkEngineCell (square_name f r) p c)
                | None => None
                end) range8)
      (reverse range8).

Definition isCheck (e : Chess) : bool :=
  in_check (cells (position e)) (to_move (position e)).
Definition isCheckmate (e : Chess) : bool :=
  if isCheck e then negb (has_legal_move (position e)) else false.
Definition isStalemate (e : Chess) : bool :=
  if isCheck e then false else negb (has_legal_move (position e)).

Definition isInsufficientMaterial (e : Chess) : bool :=
  let occupied :=
    omap (fun '(f, r) =>
            (fun pc => (snd pc, (f + r) mod 2))
              <$> piece_at (cells (position e)) f r) all_squares in
  let bishops :=
    omap (fun x => if bool_decide (fst x = Bishop) then Some (snd x)
                   else None) occupied in
  let knights := filter (fun x => fst x = Knight) occupied in
  let n := length occupied in
  if Nat.eqb n 2 then true
  else if Nat.eqb n 3
          && (Nat.eqb (length bishops) 1 || Nat.eqb (length knights) 1)
  then true
  else if Nat.eqb n (length bishops + 2) then
    forallb (Z.eqb 0) bishops || forallb (Z.eqb 1) bishops
  else false.

(** The en-passant square as the engine reports it: the square a pawn has
    just passed over, provided a pawn of the side to move stands beside
    the advanced pawn and capturing it would not leave that side's king
    attacked; nothing otherwise. *)
Definition reported_ep (pos : Position) : option (Z * Z) :=
  match ep_square pos with
  | Some (f, r) =>
      let fr := r - pawn_dir (to_move pos) in
      let can (ff : Z) :=
        match pseudo pos ff fr f r with
        | Some EnPassant =>
            match try_move pos ff fr f r None with
            | Some _ => true
            | None => false
            end
        | _ => false
        end in
      if can (f + 1) then Some (f, r)
      else if can (f - 1) then Some (f, r)
      else None
  | None => None
  end.

(** What a repetition compares: the first four fields of the FEN, that is
    everything but the two counters. *)
Definition repetition_key (pos : Position) : Position :=
  mkPosition (cells pos) (to_move pos) (castle_k pos) (castle_q pos)
    (reported_ep pos) 0 0.

Definition isThreefoldRepetition (e : Chess) : bool :=
  let key := repetition_key (position e) in
  Nat.leb 3
    (length (filter (fun pos => repetition_key pos = key)
               (position e :: map snd (history e)))).

Definition isDraw (e : Chess) : bool :=
  if Nat.leb 100 (half_moves (position e)) then true
  else if isStalemate e then true
  else if isInsufficientMaterial e then true
  else isThreefoldRepetition e.

Definition piece_letter (pc : Piece) : string :=
  match pc with
  | (Black, Pawn) => "p" | (Black, Knight) => "n" | (Black, Bishop) => "b"
  | (Black, Rook) => "r" | (Black, Queen) => "q" | (Black, King) => "k"
  | (White, Pawn) => "P" | (White, Knight) => "N" | (White, Bishop) => "B"
  | (White, Rook) => "R" | (White, Queen) => "Q" | (White, King) => "K"
  end.

(** One rank of the FEN placement field; [gap] counts empty cells. *)
Fixpoint fen_rank (row : list (option Piece)) (gap : nat) : string :=
  let flush := if Nat.eqb gap 0 then EmptyString else pretty gap in
  match row with
  | [] => flush
  | None :: row' => fen_rank row' (S gap)
  | Some pc :: row' => flush +:+ piece_letter pc +:+ fen_rank row' 0
  end.

Definition fen_of (e : Chess) : string :=
  let pos := position e in
  let rows :=
    map (fun r => fen_rank (map (fun f => piece_at (cells pos) f r) range8) 0)
        (reverse range8) in
  let rights :=
    (if w (castle_k pos) then "K" else EmptyString)
    +:+ (if w (castle_q pos) then "Q" else EmptyString)
    +:+ (if b (castle_k pos) then "k" else EmptyString)
    +:+ (if b (castle_q pos) then "q" else EmptyString) in
  String.concat "/" rows
  +:+ " " +:+ (match to_move pos with White => "w" | Black => "b" end)
  +:+ " " +:+ (if String.eqb rights EmptyString then "-" else rights)
  +:+ " " +:+ (match reported_ep pos with
               | Some (f, r) => square_name f r
               | None => "-"
               end)
  +:+ " " +:+ pretty (half_moves pos)
  +:+ " " +:+ pretty (move_number pos).

#[global] Instance engine : RulesEngine Chess := {|
  chess_new := new;
  chess_move := do_move;
  chess_undo := do_undo;
  chess_turn e := to_move (position e);
  chess_board := board_of;
  chess_fen := fen_of;
  chess_isCheck := isCheck;
  chess_isCheckmate := isCheckmate;
  chess_isDraw := isDraw;
  chess_isInsufficientMaterial := isInsufficientMaterial;
  chess_isThreefoldRepetition := isThreefoldRepetition
|}.

End ChessJs.

(** ** Running the machine *)

(** A sequence of transitions, applied left to right. *)
Definition run {E} `{RulesEngine E} (actions : list ChessAction)
    (se : ChessState * E) : ChessState * E :=
  foldl (fun se a => chessReducer (fst se) a (snd se)) se actions.

Definition default_players : ByColor Player :=
  mkByColor (mkPlayer "WHITE" local) (mkPlayer "BLACK" local).

(** A fresh game on the concrete engine with [length]-minute clocks. *)
Definition fresh (length : Q) : ChessState * ChessJs.Chess :=
  (createChessState length default_players, ChessJs.new).

(** The squares the engine's board has a piece on. *)
Definition occupied_squares {E} `{RulesEngine E} (chess : E) : list Square :=
  square <$> omap id (concat (chess_board chess)).

(** The distinct identifiers in an identity map. *)
Definition identifiers (uids : gmap string string) : gset string :=
  map_img uids.

(** 1. e4, taken back: the redo stack holds e2-e4. *)
Definition takeback_game : list ChessAction :=
  [move "e2" "e4" None 1000; undo 2000].

(** 1. e4 a6 2. e5 d5: White can capture en passant on d6. *)
Definition en_passant_game : list ChessAction :=
  [move "e2" "e4" None 1000; move "a7" "a6" None 2000;
   move "e4" "e5" None 3000; move "d7" "d5" None 4000].

(** 1. e4 d5 2. exd5 Nc6 3. dxc6 a6: White has captured a pawn, then a
    knight, and can capture a pawn on b7. *)
Definition captures_game : list ChessAction :=
  [move "e2" "e4" None 1000; move "d7" "d5" None 2000;
   move "e4" "d5" None 3000; move "b8" "c6" None 4000;
   move "d5" "c6" None 5000; move "a7" "a6" None 6000].

(** A game with an en-passant capture, an undo, a redo, a time check long
    after the clock has run out, and a move attempted after that. *)
Definition long_game : list ChessAction :=
  en_passant_game
  ++ [move "e5" "d6" None 5000; undo 6000; redo 7000; pause None;
      checkTimers 400000; move "c7" "d6" None 401000].

(** 1. e4 d5: White can capture on d5. *)
Definition exchange_game : list ChessAction :=
  [move "e2" "e4" None 1000; move "d7" "d5" None 2000].

(** The Ruy Lopez up to White's castling: 1. e4 e5 2. Nf3 Nc6 3. Bb5 a6
    4. Ba4 Nf6 5. O-O. *)
Definition ruy_lopez : list ChessAction :=
  [move "e2" "e4" None 1000; move "e7" "e5" None 2000;
   move "g1" "f3" None 3000; move "b8" "c6" None 4000;
   move "f1" "b5" None 5000; move "a7" "a6" None 6000;
   move "b5" "a4" None 7000; move "g8" "f6" None 8000;
   move "e1" "g1" None 9000].

(** Scholar's mate: 1. e4 e5 2. Qh5 Nc6 3. Bc4 Nf6 4. Qxf7#. *)
Definition scholars_mate : list ChessAction :=
  [move "e2" "e4" None 1000; move "e7" "e5" None 2000;
   move "d1" "h5" None 3000; move "b8" "c6" None 4000;
   move "f1" "c4" None 5000; move "g8" "f6" None 6000;
   move "h5" "f7" None 7000].

(** 1. e4 Nf6 2. Nf3 Ng8 3. Ng1 Nf6 4. Nf3 Ng8 5. Ng1: the position after
    1. e4 stands on the board for the third time. *)
Definition knight_shuffle : list ChessAction :=
  [move "e2" "e4" None 1000; move "g8" "f6" None 2000;
   move "g1" "f3" None 3000; move "f6" "g8" None 4000;
   move "f3" "g1" None 5000; move "g8" "f6" None 6000;
   move "g1" "f3" None 7000; move "f6" "g8" None 8000;
   move "f3" "g1" None 9000].

(** The moves chess.js reports for e2-e4 and, after 1. e4 d5, for exd5. *)
Definition e2e4 : Move := mkMove White "e2" "e4" Pawn None None "b".
Definition e4xd5 : Move := mkMove White "e4" "d5" Pawn (Some Pawn) None "c".

(** The transitions a caller may request; [endMove] is the reducer's own. *)
Definition is_public (a : ChessAction) : bool :=
  match a with endMove _ => false | _ => true end.

Definition action_time (a : ChessAction) : option Q :=
  match a with
  | move _ _ _ t | undo t | redo t | checkTimers t | endMove t => Some t
  | pause t => t
  end.

Fixpoint nondecreasing (ts : list Q) : bool :=
  match ts with
  | t1 :: (t2 :: _) as rest => Qle_bool t1 t2 && nondecreasing rest
  | _ => true
  end.

(** ** What the specification says, in its own words *)

(** Dropping the earliest occurrence of [x]. *)
Fixpoint remove_first (x : PieceSymbol) (l : list PieceSymbol) :
    list PieceSymbol :=
  match l with
  | [] => []
  | y :: l' => if decide (y = x) then l' else y :: remove_first x l'
  end.

(** Dropping the latest occurrence of [x]: the entry a capture of [x]
    appended most recently. *)
Definition remove_last (x : PieceSymbol) (l : list PieceSymbol) :
    list PieceSymbol :=
  reverse (remove_first x (reverse l)).


(** The clock scenario as the specification asserts it: White has about
    298 s left (to within a second), it is White's turn, and Black's clock
    is the one running. *)
Definition scenario_as_specified (s : ChessState) : Prop :=
  (Qabs (time (w (timers s)) - 298) < 1)%Q
  ∧ turn s = White
  ∧ truthy_num (set (b (timers s))) = true.

(** The five terminal conditions with their tags, in the fixed order. *)
Definition conditions {E} `{RulesEngine E} (chess : E) (outOfTime : bool) :
    list (bool * string) :=
  [(outOfTime, "t");
   (chess_isCheckmate chess, "c");
   (chess_isDraw chess, "d");
   (chess_isInsufficientMaterial chess, "m");
   (chess_isThreefoldRepetition chess, "r")].

(** The tags of the conditions that hold, concatenated; no value when none
    holds. *)
Definition encode_tags (conds : list (bool * string)) : option string :=
  if existsb fst conds
  then Some (String.concat EmptyString (map snd (List.filter fst conds)))
  else None.

(** ** Notions used in the statements *)

Section Notions.
Context {E : Type} `{RulesEngine E}.
Implicit Types (s : ChessState) (chess : E) (now : Q).

(** The watched clock has run out at [now]. *)
Definition expired s now : bool :=
  if truthy_num (set (watched s))
  then Qle_bool (time (watched s) - elapsed now (set (watched s))) 0
  else false.

(** The state [checkTimers] returns on expiry. *)
Definition timed_out s chess : ChessState :=
  with_timers
    (mkByColor
       (mkTimer None (if truthy_num (set (w (timers s))) then 0
                      else time (w (timers s))))
       (mkTimer None (if truthy_num (set (b (timers s))) then 0
                      else time (b (timers s)))))
    (with_complete (getCompleteFlag chess true) s).

(** Neither remaining time is negative and at most one clock runs. *)
Definition timers_ok (ts : ByColor Timer) : Prop :=
  (0 <= time (w ts))%Q ∧ (0 <= time (b ts))%Q
  ∧ (set (w ts) = None ∨ set (b ts) = None).

Definition clocks_ok s : Prop := timers_ok (timers s).

(** The view of the engine that [endMove] stores in the state. *)
Definition in_step s chess : Prop :=
  board s = getBoard chess (pieceUids s)
  ∧ turn s = chess_turn chess
  ∧ check s = set_side (chess_turn chess) (chess_isCheck chess)
                (mkByColor false false)
  ∧ complete s = getCompleteFlag chess false.

Definition free (uids : gmap string string) (k : Square) : bool :=
  bool_decide (uids !! k = None).

Definition distinct4 (k1 k2 k3 k4 : Square) : bool :=
  bool_decide (k1 ≠ k2) && bool_decide (k1 ≠ k3) && bool_decide (k1 ≠ k4)
  && bool_decide (k2 ≠ k3) && bool_decide (k2 ≠ k4)
  && bool_decide (k3 ≠ k4).

(** The identity map agrees with a move about to be made: the squares the
    move fills hold no identifier, except the destination of a capture,
    and no identifier is the empty string. *)
Definition footprint_ok (m : Move) (uids : gmap string string) : bool :=
  bool_decide (from m ≠ to m) &&
  if truthy_piece (captured m) || has_flag "e" (flags m) then
    bool_decide (uids !! to m ≠ Some EmptyString)
  else if has_flag "k" (flags m) then
    free uids (to m) && free uids (castle_square "f" (from m))
    && distinct4 (from m) (to m) (castle_square "h" (from m))
         (castle_square "f" (from m))
  else if has_flag "q" (flags m) then
    free uids (to m) && free uids (castle_square "d" (from m))
    && distinct4 (from m) (to m) (castle_square "a" (from m))
         (castle_square "d" (from m))
  else free uids (to m).

(** The identity map and the undo record agree with a move that has been
    made: the squares it left hold no identifier, and the record is the
    one such a move pushes. *)
Definition placed_ok (m : Move) (update : option MoveUID)
    (uids : gmap string string) : bool :=
  bool_decide (from m ≠ to m) && free uids (from m) &&
  if truthy_piece (captured m) || has_flag "e" (flags m) then
    match update with
    | Some u => bool_decide (taken u ≠ Some EmptyString)
    | None => false
    end
  else
    bool_decide (update = Some (mkMoveUID None)) &&
    if has_flag "k" (flags m) then
      free uids (castle_square "h" (from m))
      && distinct4 (from m) (to m) (castle_square "h" (from m))
           (castle_square "f" (from m))
    else if has_flag "q" (flags m) then
      free uids (castle_square "a" (from m))
      && distinct4 (from m) (to m) (castle_square "a" (from m))
           (castle_square "d" (from m))
    else true.

(** The capture of a move that has been made is in the mover's set. *)
Definition recorded (m : Move) s : bool :=
  match captured m with
  | Some x => bool_decide (x ∈ side (color m) (captured_by s))
  | None => true
  end.

(** The state an accepted move [m] leaves, [chess'] being the engine
    after it. *)
Definition moved s (m : Move) now chess' : ChessState :=
  reduce_endMove
    (with_captured
       (match captured m with
        | Some c =>
            set_side (color m) (side (color m) (captured_by s) ++ [c])
              (captured_by s)
        | None => captured_by s
        end)
       (with_moves (Some (default [] (moves s) ++ [m]))
          (with_pieceUidTracker
             (pieceUidTracker s ++ [(track_move m (pieceUids s)).2])
             (with_pieceUids (track_move m (pieceUids s)).1
                (with_redoStack [] s)))))
    now chess'.

(** The state an accepted undo of [m] leaves, [ms] being the history. *)
Definition unmoved s (m : Move) (ms : list Move) now chess' : ChessState :=
  reduce_endMove
    (with_redoStack (redoStack s ++ [m])
       (with_captured
          (match captured m with
           | Some c =>
               set_side (color m)
                 (remove_indexOf c (side (color m) (captured_by s)))
                 (captured_by s)
           | None => captured_by s
           end)
          (with_pieceUids
             (untrack_move m (last (pieceUidTracker s)) (pieceUids s))
             (with_pieceUidTracker (removelast (pieceUidTracker s))
                (with_moves (Some (removelast ms)) s)))))
    now chess'.

(** Two states agree in everything but the clocks and the order of the
    entries of the captured sets. *)
Definition same_up_to_clocks s s' : Prop :=
  moves s = moves s'
  ∧ redoStack s = redoStack s'
  ∧ pieceUids s = pieceUids s'
  ∧ pieceUidTracker s = pieceUidTracker s'
  ∧ board s = board s'
  ∧ turn s = turn s'
  ∧ check s = check s'
  ∧ complete s = complete s'
  ∧ fen s = fen s'
  ∧ paused s = paused s'
  ∧ players s = players s'
  ∧ ∀ c, side c (captured_by s) ≡ₚ side c (captured_by s').

(** The game is still going after the time check at [now]. *)
Definition going s now chess : bool :=
  negb (truthy_str (complete (reduce_checkTimers s now chess))).

(** Side [c]'s captured list after the move [m] is committed: the mover's
    list gets the captured piece type, if any, appended; the other side's
    list is as it was. *)
Definition capture_appended (m : Move) (c : Color)
    (old : list PieceSymbol) : list PieceSymbol :=
  match captured m with
  | Some x => if decide (c = color m) then old ++ [x] else old
  | None => old
  end.

(** Side [c]'s captured list [new] after the move [m] is undone: on the
    mover's list the earliest entry equal to the captured piece type is
    gone (nothing is, should the type not occur); the other side's list,
    and both when [m] captured nothing, are as they were. *)
Definition earliest_capture_removed (m : Move) (c : Color)
    (old new : list PieceSymbol) : Prop :=
  match captured m with
  | Some x =>
      if decide (c = color m)
      then (∃ l1 l2, old = l1 ++ (x :: l2) ∧ (x ∉ l1) ∧ new = l1 ++ l2)
           ∨ ((x ∉ old) ∧ new = old)
      else new = old
  | None => new = old
  end.

End Notions.

(** ** Further notions *)

(** No identifier is on two squares. *)
Definition uids_injective (uids : gmap string string) : Prop :=
  ∀ k1 k2 u, uids !! k1 = Some u → uids !! k2 = Some u → k1 = k2.

(** Every identifier in the identity map and in the undo records belongs
    to [ids]. *)
Definition ids_within (ids : gset string) (s : ChessState) : Prop :=
  (∀ k u, pieceUids s !! k = Some u → u ∈ ids)
  ∧ Forall (fun r => ∀ u, taken r = Some u → u ∈ ids) (pieceUidTracker s).

(** The history is defined and has one undo record per move. *)
Definition history_ok (s : ChessState) : Prop :=
  ∃ ms, moves s = Some ms ∧ length ms = length (pieceUidTracker s).

(** Only the side to move has a started clock or a raised check flag. *)
Definition turn_holder_ok (s : ChessState) : Prop :=
  ∀ c, set (side c (timers s)) ≠ None ∨ side c (check s) = true →
       c = turn s.

(** The public transitions other than undo. *)
Definition is_forward (a : ChessAction) : bool :=
  match a with undo _ | endMove _ => false | _ => true end.

(** The rook's squares of a castling move, by its flag. *)
Definition rook_squares (m : Move) : Square * Square :=
  if has_flag "k" (flags m)
  then (castle_square "h" (from m), castle_square "f" (from m))
  else (castle_square "a" (from m), castle_square "d" (from m)).

(** The en-passant game without its undo: only forward transitions. *)
Definition forward_game : list ChessAction :=
  en_passant_game
  ++ [move "e5" "d6" None 5000; pause None; checkTimers 6000;
      move "c7" "d6" None 7000].

(** White's king-side castling as chess.js reports it. *)
Definition castle_kingside : Move :=
  mkMove White "e1" "g1" King None None "k".

(** ** The provider's coordinate helpers (providers/ChessProvider.tsx)

    Board coordinates are integers: [x] counts files from the left and [y]
    counts rows from the top, as the board is drawn. *)

(** ['abcdefgh'[x]] inside a template literal: [undefined] out of range. *)
Definition file_letter (x : Z) : string :=
  match (if (0 <=? x)%Z then String.get (Z.to_nat x) "abcdefgh" else None)
  with
  | Some c => String c EmptyString
  | None => "undefined"
  end.

(** [XYtoSquare]: [`${'abcdefgh'[x]}${8 - y}`]. *)
Definition XYtoSquare (x y : Z) : Square :=
  file_letter x +:+ pretty (8 - y)%Z.

(** ["abcdefgh".indexOf(c)] for what [square[0]] reads: a missing
    character reads [undefined], which is not found. *)
Definition file_index (c : option ascii) : Z :=
  match c with
  | Some c =>
      match String.index 0 (String c EmptyString) "abcdefgh" with
      | Some i => Z.of_nat i
      | None => -1
      end
  | None => -1
  end.

(** [parseInt(c)] for what [square[1]] reads: a digit gives its value,
    anything else (a missing character too) gives [NaN], here [None]. *)
Definition parseInt_char (c : option ascii) : option Z :=
  match c with
  | Some c =>
      let n := nat_of_ascii c in
      if Nat.leb 48 n && Nat.leb n 57 then Some (Z.of_nat n - 48)%Z else None
  | None => None
  end.

(** [SquareToXY]: [["abcdefgh".indexOf(square[0]), 8 - parseInt(square[1])]];
    [8 - NaN] is [NaN]. *)
Definition SquareToXY (square : Square) : Z * option Z :=
  (file_index (String.get 0 square),
   (fun d => 8 - d)%Z <$> parseInt_char (String.get 1 square)).

#[global] Instance PlayerType_eq_dec : EqDecision PlayerType.
Proof. solve_decision. Defined.

(** [ChessConfig]. *)
Record ChessConfig := mkChessConfig {
  player_white : PlayerType;
  player_black : PlayerType;
  positions : string
}.

(** The guard of the provider's effect that asks the automated opponent for
    a move; [config] is [configRef.current], undefined before the first
    game is started. *)
Definition bot_is_due (config : option ChessConfig) (state : ChessState)
    (isAIThinking : bool) : bool :=
  let thisPlayer :=
    match turn state with
    | Black => player_black <$> config
    | White => player_white <$> config
    end in
  bool_decide (thisPlayer = Some bot)
  && Nat.eqb (length (redoStack state)) 0
  && negb isAIThinking
  && negb (truthy_str (complete state)).

(** * Properties *)

Section Properties.
Context {E : Type} `{RulesEngine E}.
Implicit Types (s : ChessState) (chess : E) (now : Q).

(** *** Lists *)

Lemma indexOf_ge x (l : list PieceSymbol) : (-1 <= indexOf x l)%Z.
Proof.
  induction l as [|y l IH]; cbn; [lia|].
  destruct (decide (y = x)); [lia|].
  destruct (Z.ltb_spec (indexOf x l) 0); lia.
Qed.

Lemma indexOf_absent x (l : list PieceSymbol) :
  x ∉ l ↔ indexOf x l = (-1)%Z.
Proof.
  induction l as [|y l IH]; cbn.
  - split; [done | intros _; apply not_elem_of_nil].
  - rewrite not_elem_of_cons, IH.
    pose proof (indexOf_ge x l).
    destruct (decide (y = x)) as [->|Hne].
    + split; [intros [[] _]; reflexivity | lia].
    + destruct (Z.ltb_spec (indexOf x l) 0); intuition (congruence || lia).
Qed.

Lemma filter_from_ext {A} (keep keep' : Z → bool) (i : Z) (l : list A) :
  (∀ j, (i <= j)%Z → keep j = keep' j) →
  filter_from keep i l = filter_from keep' i l.
Proof.
  revert i. induction l as [|y l IH]; intros i Hext; cbn; [reflexivity|].
  rewrite (Hext i) by lia.
  rewrite (IH (i + 1)%Z) by (intros; apply Hext; lia).
  reflexivity.
Qed.

Lemma filter_from_all {A} (keep : Z → bool) (i : Z) (l : list A) :
  (∀ j, (i <= j)%Z → keep j = true) → filter_from keep i l = l.
Proof.
  revert i. induction l as [|y l IH]; intros i Hall; cbn; [reflexivity|].
  rewrite (Hall i) by lia.
  rewrite (IH (i + 1)%Z) by (intros; apply Hall; lia).
  reflexivity.
Qed.

Lemma filter_from_indexOf x (l : list PieceSymbol) (i : Z) :
  filter_from (fun j => negb (j =? i + indexOf x l)%Z) i l
  = remove_first x l.
Proof.
  revert i. induction l as [|y l IH]; intros i; cbn; [reflexivity|].
  pose proof (indexOf_ge x l).
  destruct (decide (y = x)) as [->|Hne].
  - rewrite Z.add_0_r, Z.eqb_refl. cbn.
    apply filter_from_all. intros j Hj.
    apply negb_true_iff, Z.eqb_neq. lia.
  - replace (i =? _)%Z with false; cbn.
    + f_equal. rewrite <- (IH (i + 1)%Z).
      apply filter_from_ext. intros j Hj. f_equal.
      destruct (Z.ltb_spec (indexOf x l) 0).
      * replace (indexOf x l) with (-1)%Z by lia.
        symmetry. transitivity false; [apply Z.eqb_neq; lia|].
        symmetry. apply Z.eqb_neq. lia.
      * f_equal. lia.
    + symmetry. apply Z.eqb_neq.
      destruct (Z.ltb_spec (indexOf x l) 0); lia.
Qed.

(** The source's [indexOf]/[filter] pair drops the earliest occurrence. *)
Lemma remove_indexOf_first x (l : list PieceSymbol) :
  remove_indexOf x l = remove_first x l.
Proof. unfold remove_indexOf. apply (filter_from_indexOf x l 0). Qed.

Lemma remove_first_absent x (l : list PieceSymbol) :
  x ∉ l → remove_first x l = l.
Proof.
  induction l as [|y l IH]; cbn; [reflexivity|].
  rewrite not_elem_of_cons. intros [Hne Hnotin].
  destruct (decide (y = x)); [congruence|].
  by rewrite IH.
Qed.

Lemma remove_first_split x (l : list PieceSymbol) :
  x ∈ l →
  ∃ l1 l2,
    l = l1 ++ (x :: l2) ∧ (x ∉ l1) ∧ remove_first x l = l1 ++ l2.
Proof.
  induction l as [|y l IH]; [by intros ?%elem_of_nil|].
  intros Hin. cbn. destruct (decide (y = x)) as [->|Hne].
  - exists [], l. repeat split. apply not_elem_of_nil.
  - apply elem_of_cons in Hin as [?|Hin]; [congruence|].
    destruct (IH Hin) as (l1 & l2 & -> & Hnotin & ->).
    exists (y :: l1), l2. repeat split.
    rewrite not_elem_of_cons. split; [congruence | assumption].
Qed.

Lemma remove_first_perm x (l : list PieceSymbol) :
  x ∈ l → x :: remove_first x l ≡ₚ l.
Proof.
  intros (l1 & l2 & -> & _ & ->)%remove_first_split.
  apply Permutation_middle.
Qed.

Lemma remove_first_snoc x (l : list PieceSymbol) :
  remove_first x (l ++ [x]) ≡ₚ l
  ∧ (x ∉ l → remove_first x (l ++ [x]) = l).
Proof.
  split.
  - apply (Permutation_cons_inv (a := x)).
    rewrite remove_first_perm
      by (apply elem_of_app; right; by apply list_elem_of_singleton).
    by rewrite Permutation_app_comm.
  - induction l as [|y l IH]; cbn.
    + intros _. by rewrite decide_True.
    + rewrite not_elem_of_cons. intros [Hne Hnotin].
      rewrite decide_False by congruence. by rewrite IH.
Qed.

Lemma last_removelast {A} (l : list A) (x : A) :
  last l = Some x → removelast l ++ [x] = l.
Proof.
  destruct l as [|y l _] using rev_ind; [discriminate|].
  rewrite last_snoc, removelast_last. by intros [= ->].
Qed.

(** *** The identity map *)

Lemma lookup_assign k v (uids : gmap string string) j :
  assign k v uids !! j = if decide (k = j) then v else uids !! j.
Proof.
  destruct v; cbn; [apply lookup_insert|].
  rewrite lookup_delete. by case_decide.
Qed.

Lemma lookup_relocate src dst (uids : gmap string string) j :
  relocate src dst uids !! j
  = if decide (src = j) then None
    else if decide (dst = j) then uids !! src else uids !! j.
Proof. unfold relocate. by rewrite lookup_delete, lookup_assign. Qed.

(** An en-passant capture records what stands on the destination and moves
    nothing but the capturing pawn's identifier: every other square, the
    captured pawn's included, keeps what it had. *)
Lemma track_move_en_passant m (uids : gmap string string) (k : Square) :
  has_flag "e" (flags m) = true →
  (track_move m uids).2 = mkMoveUID (uids !! to m)
  ∧ (k ≠ from m → k ≠ to m → (track_move m uids).1 !! k = uids !! k).
Proof.
  intros Hflag. unfold track_move. rewrite Hflag, orb_true_r. cbn.
  split; [reflexivity|]. intros Hfrom Hto.
  rewrite lookup_relocate. by rewrite !decide_False.
Qed.

Ltac unfold_ok H :=
  repeat (apply andb_prop in H as [H ?]);
  repeat match goal with
    | Hb : bool_decide _ = true |- _ => apply bool_decide_eq_true in Hb
    | Hb : free _ _ = true |- _ => apply bool_decide_eq_true in Hb
    end.

Ltac map_ext :=
  apply map_eq; intros j;
  repeat (rewrite ?lookup_relocate, ?lookup_assign, ?lookup_delete;
          try done; try congruence; case_decide; subst;
          try done; try congruence).

Lemma relocate_back src dst (uids : gmap string string) :
  src ≠ dst → uids !! dst = None →
  relocate dst src (relocate src dst uids) = uids.
Proof. intros Hne Hfree. map_ext. Qed.

Lemma relocate_comm k1 k2 k3 k4 (uids : gmap string string) :
  k1 ≠ k3 → k1 ≠ k4 → k2 ≠ k3 → k2 ≠ k4 →
  relocate k1 k2 (relocate k3 k4 uids)
  = relocate k3 k4 (relocate k1 k2 uids).
Proof. intros H13 H14 H23 H24. map_ext. Qed.

Lemma castle_back k1 k2 k3 k4 (uids : gmap string string) :
  distinct4 k1 k2 k3 k4 = true →
  uids !! k2 = None → uids !! k4 = None →
  relocate k4 k3 (relocate k2 k1 (relocate k3 k4 (relocate k1 k2 uids)))
  = uids.
Proof.
  unfold distinct4. intros Hd Hf2 Hf4. unfold_ok Hd.
  rewrite (relocate_comm k2 k1 k3 k4) by done.
  rewrite (relocate_back k1 k2) by done.
  by apply relocate_back.
Qed.

Lemma castle_forth k1 k2 k3 k4 (uids : gmap string string) :
  distinct4 k1 k2 k3 k4 = true →
  uids !! k1 = None → uids !! k3 = None →
  relocate k3 k4 (relocate k1 k2 (relocate k4 k3 (relocate k2 k1 uids)))
  = uids.
Proof.
  unfold distinct4. intros Hd Hf1 Hf3. unfold_ok Hd.
  rewrite (relocate_comm k1 k2 k4 k3) by done.
  rewrite (relocate_back k2 k1) by done.
  by apply relocate_back.
Qed.

(** Undoing right after the move gives the identity map back. *)
Lemma untrack_track m (uids : gmap string string) :
  footprint_ok m uids = true →
  untrack_move m (Some (track_move m uids).2) (track_move m uids).1 = uids.
Proof.
  unfold footprint_ok, track_move, untrack_move, distinct4. intros Hok.
  apply andb_prop in Hok as [Hne%bool_decide_eq_true Hok].
  destruct (truthy_piece (captured m) || has_flag "e" (flags m)); cbn.
  - apply bool_decide_eq_true in Hok.
    rewrite lookup_relocate.
    rewrite decide_False, decide_True by done.
    destruct (truthy_str (uids !! to m)) eqn:Htaken.
    + map_ext.
    + assert (uids !! to m = None) as Hnone.
      { destruct (uids !! to m) as [u|]; [|done].
        cbn in Htaken. apply negb_false_iff, String.eqb_eq in Htaken.
        congruence. }
      map_ext.
  - destruct (has_flag "k" (flags m)); [|destruct (has_flag "q" (flags m))];
      cbn.
    + apply andb_prop in Hok as [[Hto Hrook]%andb_prop Hd].
      apply bool_decide_eq_true in Hto, Hrook. by apply castle_back.
    + apply andb_prop in Hok as [[Hto Hrook]%andb_prop Hd].
      apply bool_decide_eq_true in Hto, Hrook. by apply castle_back.
    + apply bool_decide_eq_true in Hok. by apply relocate_back.
Qed.

(** Redoing right after the undo gives the identity map and the undo
    record back. *)
Lemma track_untrack m u (uids : gmap string string) :
  placed_ok m (Some u) uids = true →
  track_move m (untrack_move m (Some u) uids) = (uids, u).
Proof.
  unfold placed_ok, track_move, untrack_move, distinct4. intros Hok.
  apply andb_prop in Hok as [Hok Hrest].
  apply andb_prop in Hok as [Hne%bool_decide_eq_true Hfree].
  apply bool_decide_eq_true in Hfree.
  destruct (truthy_piece (captured m) || has_flag "e" (flags m)); cbn.
  - apply bool_decide_eq_true in Hrest. destruct u as [t]. cbn in *.
    destruct (truthy_str t) eqn:Htaken.
    + f_equal; [map_ext|].
      by rewrite lookup_assign, decide_True.
    + assert (t = None) as ->.
      { destruct t as [u|]; [|done].
        cbn in Htaken. apply negb_false_iff, String.eqb_eq in Htaken.
        congruence. }
      f_equal; [map_ext|].
      by rewrite lookup_delete_eq.
  - apply andb_prop in Hrest as [[= ->]%bool_decide_eq_true Hrest].
    destruct (has_flag "k" (flags m)); [|destruct (has_flag "q" (flags m))];
      cbn; f_equal.
    + apply andb_prop in Hrest as [Hrook%bool_decide_eq_true Hd].
      apply (castle_forth _ _ _ _ _ Hd Hfree Hrook).
    + apply andb_prop in Hrest as [Hrook%bool_decide_eq_true Hd].
      apply (castle_forth _ _ _ _ _ Hd Hfree Hrook).
    + by apply relocate_back.
Qed.

(** *** Completion tags *)

(** C8.  The completion flag is the concatenation, in the order timed-out
    ['t'], checkmate ['c'], draw ['d'], insufficient material ['m'],
    threefold repetition ['r'], of the tags whose condition holds; it is
    absent exactly when no condition holds, and each tag occurs in it
    exactly when its condition holds. *)
Theorem getCompleteFlag_encoding chess (outOfTime : bool) :
  getCompleteFlag chess outOfTime = encode_tags (conditions chess outOfTime)
  ∧ (getCompleteFlag chess outOfTime = None
     ↔ Forall (fun c => fst c = false) (conditions chess outOfTime))
  ∧ (∀ r, getCompleteFlag chess outOfTime = Some r →
          Forall (fun c => has_flag (snd c) r = fst c)
                 (conditions chess outOfTime)).
Proof.
  unfold getCompleteFlag, conditions, encode_tags.
  destruct outOfTime, (chess_isCheckmate chess), (chess_isDraw chess),
    (chess_isInsufficientMaterial chess),
    (chess_isThreefoldRepetition chess); cbn;
    (split; [reflexivity | split]);
    try (split; [discriminate | rewrite !Forall_cons; cbn; intuition congruence]);
    try (split; [repeat constructor | reflexivity]);
    try discriminate;
    intros r [= <-]; repeat constructor.
Qed.

(** With the timed-out signal the flag is a non-empty string. *)
Lemma getCompleteFlag_timed_out chess :
  truthy_str (getCompleteFlag chess true) = true.
Proof.
  unfold getCompleteFlag.
  destruct (chess_isCheckmate chess), (chess_isDraw chess),
    (chess_isInsufficientMaterial chess),
    (chess_isThreefoldRepetition chess); reflexivity.
Qed.

(** *** The time check *)

Lemma reduce_checkTimers_cases s now chess :
  reduce_checkTimers s now chess
  = if expired s now then timed_out s chess else s.
Proof.
  unfold reduce_checkTimers, expired, timed_out.
  destruct (truthy_num (set (watched s))); reflexivity.
Qed.

Lemma checkTimers_not_expired s now chess :
  expired s now = false → reduce_checkTimers s now chess = s.
Proof. intros Hexp. by rewrite reduce_checkTimers_cases, Hexp. Qed.

(** A time check that leaves the game going changed nothing. *)
Lemma checkTimers_active s now chess :
  truthy_str (complete (reduce_checkTimers s now chess)) = false →
  expired s now = false
  ∧ reduce_checkTimers s now chess = s
  ∧ truthy_str (complete s) = false.
Proof.
  rewrite reduce_checkTimers_cases.
  destruct (expired s now); cbn.
  - rewrite getCompleteFlag_timed_out. discriminate.
  - auto.
Qed.

(** C10.  While neither clock has a started-at timestamp, [checkTimers]
    returns the state (and the engine) unchanged, whatever the time: the
    game cannot be completed by timeout before a clock has started. *)
Theorem checkTimers_before_start s now chess :
  set (w (timers s)) = None →
  set (b (timers s)) = None →
  chessReducer s (checkTimers now) chess = (s, chess).
Proof.
  intros Hw Hb. cbn. unfold reduce_checkTimers, watched.
  rewrite Hw. cbn. rewrite Hb. reflexivity.
Qed.

(** *** The transitions, case by case *)

Lemma reduce_move_complete s from to promo now chess :
  truthy_str (complete (reduce_checkTimers s now chess)) = true →
  reduce_move s from to promo now chess
  = (reduce_checkTimers s now chess, chess).
Proof. intros Hc. unfold reduce_move. by rewrite Hc. Qed.

Lemma reduce_move_rejected s from to promo now chess :
  truthy_str (complete (reduce_checkTimers s now chess)) = false →
  chess_move chess from to promo = None →
  reduce_move s from to promo now chess = (with_redoStack [] s, chess).
Proof.
  intros Hact Hmv. unfold reduce_move. rewrite Hact, Hmv.
  by apply checkTimers_active in Hact as (_ & -> & _).
Qed.

Lemma reduce_move_accepted s from to promo now chess m chess' :
  truthy_str (complete (reduce_checkTimers s now chess)) = false →
  chess_move chess from to promo = Some (m, chess') →
  reduce_move s from to promo now chess = (moved s m now chess', chess').
Proof.
  intros Hact Hmv. unfold reduce_move, moved. rewrite Hact, Hmv.
  apply checkTimers_active in Hact as (_ & -> & _).
  destruct (track_move _ _), (captured m); reflexivity.
Qed.

Lemma reduce_undo_accepted s now chess m chess' ms :
  truthy_str (complete (reduce_checkTimers s now chess)) = false →
  chess_undo chess = Some (m, chess') →
  moves s = Some ms →
  reduce_undo s now chess = (unmoved s m ms now chess', chess').
Proof.
  intros Hact Hun Hms. unfold reduce_undo, unmoved. rewrite Hact, Hun.
  apply checkTimers_active in Hact as (_ & -> & _). rewrite Hms.
  destruct (captured m); reflexivity.
Qed.

Lemma reduce_undo_idle s now chess :
  truthy_str (complete (reduce_checkTimers s now chess)) = true
  ∨ chess_undo chess = None ∨ moves s = None →
  captured_by (fst (reduce_undo s now chess)) = captured_by s.
Proof.
  unfold reduce_undo. rewrite reduce_checkTimers_cases.
  destruct (expired s now) eqn:Hexp; cbn.
  - by rewrite getCompleteFlag_timed_out.
  - intros [Hc | [Hun | Hms]].
    + by rewrite Hc.
    + destruct (truthy_str (complete s)); [done|]. by rewrite Hun.
    + destruct (truthy_str (complete s)); [done|].
      destruct (chess_undo chess) as [[m chess']|]; [|done].
      by rewrite Hms.
Qed.

Lemma in_step_endMove s now chess : in_step (reduce_endMove s now chess) chess.
Proof. by repeat split. Qed.

Lemma side_set_side {A} (c c' : Color) (x : A) (r : ByColor A) :
  side c (set_side c' x r) = if decide (c = c') then x else side c r.
Proof. by destruct c, c'. Qed.

Lemma set_side_same {A} (c : Color) (r : ByColor A) :
  set_side c (side c r) r = r.
Proof. by destruct c, r. Qed.

(** *** The captured sets *)

Lemma captured_checkTimers s now chess :
  captured_by (reduce_checkTimers s now chess) = captured_by s.
Proof. rewrite reduce_checkTimers_cases. by destruct (expired s now). Qed.

Lemma going_true s now chess :
  going s now chess = true →
  truthy_str (complete (reduce_checkTimers s now chess)) = false.
Proof. unfold going. by intros ->%negb_true_iff. Qed.

Lemma going_false s now chess :
  going s now chess = false →
  truthy_str (complete (reduce_checkTimers s now chess)) = true.
Proof. unfold going. by intros ->%negb_false_iff. Qed.

Lemma going_with_redoStack s (r : list Move) now chess :
  going (with_redoStack r s) now chess = going s now chess.
Proof.
  unfold going. rewrite !reduce_checkTimers_cases.
  change (expired (with_redoStack r s) now) with (expired s now).
  by destruct (expired s now).
Qed.

Lemma captured_move s src dst promo now chess (c : Color) :
  let old := side c (captured_by s) in
  let new :=
    side c (captured_by (fst (reduce_move s src dst promo now chess))) in
  match chess_move chess src dst promo with
  | Some (m, _) =>
      if going s now chess then new = capture_appended m c old
      else new = old
  | None => new = old
  end.
Proof.
  cbn zeta.
  destruct (going s now chess) eqn:Hgoing.
  - apply going_true in Hgoing.
    destruct (chess_move chess src dst promo) as [[m chess']|] eqn:Hmv.
    + rewrite (reduce_move_accepted _ _ _ _ _ _ _ _ Hgoing Hmv).
      unfold capture_appended. cbn.
      destruct (captured m) as [x|]; [|reflexivity].
      rewrite side_set_side. by case_decide; subst.
    + by rewrite reduce_move_rejected.
  - apply going_false in Hgoing.
    rewrite reduce_move_complete by done. cbn [fst].
    rewrite captured_checkTimers. by destruct (chess_move _ _ _ _) as [[]|].
Qed.

(** C6 (amended).  Each side's captured set changes only as follows.  A
    move the engine accepts while the game is going, requested directly or
    replayed by a redo, appends the captured piece type, if any, to the
    mover's set and leaves the other side's alone.  An undo the engine
    carries out while the game is going removes from the mover's set
    exactly one entry, the earliest one equal to the captured piece type
    (which need not be the entry the undone move appended), and leaves the
    other side's alone; it changes nothing when the move captured nothing.
    Every other transition, and every refused move, undo or redo, leaves
    both sets as they were. *)
Theorem captured_set_evolution s (a : ChessAction) chess (c : Color) :
  let old := side c (captured_by s) in
  let new := side c (captured_by (fst (chessReducer s a chess))) in
  match a with
  | move src dst promo now =>
      match chess_move chess src dst promo with
      | Some (m, _) =>
          if going s now chess then new = capture_appended m c old
          else new = old
      | None => new = old
      end
  | redo now =>
      match last (redoStack s) with
      | Some m0 =>
          match chess_move chess (from m0) (to m0) (promotion m0) with
          | Some (m, _) =>
              if going s now chess then new = capture_appended m c old
              else new = old
          | None => new = old
          end
      | None => new = old
      end
  | undo now =>
      match chess_undo chess, moves s with
      | Some (m, _), Some _ =>
          if going s now chess then earliest_capture_removed m c old new
          else new = old
      | _, _ => new = old
      end
  | pause _ | checkTimers _ | endMove _ => new = old
  end.
Proof.
  destruct a as [f t p now | now | now | ? | now | now];
    cbn zeta; cbn [chessReducer fst].
  - apply captured_move.
  - destruct (going s now chess) eqn:Hgoing.
    + apply going_true in Hgoing.
      destruct (chess_undo chess) as [[m chess']|] eqn:Hun;
        [|by rewrite reduce_undo_idle by auto].
      destruct (moves s) as [ms|] eqn:Hms;
        [|by rewrite reduce_undo_idle by auto].
      rewrite (reduce_undo_accepted _ _ _ _ _ _ Hgoing Hun Hms).
      unfold earliest_capture_removed. cbn.
      destruct (captured m) as [x|]; [|reflexivity].
      rewrite side_set_side. case_decide; [subst|reflexivity].
      rewrite remove_indexOf_first.
      destruct (decide (x ∈ side (color m) (captured_by s))) as [Hin|Hout].
      * left. destruct (remove_first_split _ _ Hin) as (l1 & l2 & ? & ? & ?).
        by exists l1, l2.
      * right. split; [exact Hout|]. by apply remove_first_absent.
    + apply going_false in Hgoing.
      rewrite reduce_undo_idle by auto.
      destruct (chess_undo chess) as [[m chess']|]; [|reflexivity].
      by destruct (moves s).
  - unfold reduce_redo.
    destruct (going s now chess) eqn:Hgoing.
    + pose proof (going_true _ _ _ Hgoing) as Hact. rewrite Hact.
      apply checkTimers_active in Hact as (_ & -> & _).
      destruct (last (redoStack s)) as [m0|]; [|reflexivity].
      pose proof (captured_move
                    (with_redoStack (removelast (redoStack s)) s)
                    (from m0) (to m0) (promotion m0) now chess c) as Hmv.
      cbn zeta in Hmv. rewrite going_with_redoStack, Hgoing in Hmv.
      destruct (reduce_move _ _ _ _ _ _) as [s' chess'].
      exact Hmv.
    + rewrite (going_false _ _ _ Hgoing). cbn [fst].
      rewrite captured_checkTimers.
      destruct (last (redoStack s)) as [m0|]; [|reflexivity].
      by destruct (chess_move _ _ _ _) as [[]|].
  - reflexivity.
  - by rewrite captured_checkTimers.
  - reflexivity.
Qed.

(** *** Move, then undo *)

Lemma moved_fields s m now chess' :
  pieceUids (moved s m now chess') = (track_move m (pieceUids s)).1
  ∧ pieceUidTracker (moved s m now chess')
    = pieceUidTracker s ++ [(track_move m (pieceUids s)).2]
  ∧ moves (moved s m now chess') = Some (default [] (moves s) ++ [m])
  ∧ redoStack (moved s m now chess') = []
  ∧ captured_by (moved s m now chess')
    = match captured m with
      | Some c =>
          set_side (color m) (side (color m) (captured_by s) ++ [c])
            (captured_by s)
      | None => captured_by s
      end
  ∧ fen (moved s m now chess') = fen s
  ∧ paused (moved s m now chess') = paused s
  ∧ players (moved s m now chess') = players s.
Proof. by repeat split. Qed.

Lemma unmoved_fields s m ms now chess' :
  pieceUids (unmoved s m ms now chess')
  = untrack_move m (last (pieceUidTracker s)) (pieceUids s)
  ∧ pieceUidTracker (unmoved s m ms now chess')
    = removelast (pieceUidTracker s)
  ∧ moves (unmoved s m ms now chess') = Some (removelast ms)
  ∧ redoStack (unmoved s m ms now chess') = redoStack s ++ [m]
  ∧ captured_by (unmoved s m ms now chess')
    = match captured m with
      | Some c =>
          set_side (color m)
            (remove_indexOf c (side (color m) (captured_by s)))
            (captured_by s)
      | None => captured_by s
      end
  ∧ fen (unmoved s m ms now chess') = fen s
  ∧ paused (unmoved s m ms now chess') = paused s
  ∧ players (unmoved s m ms now chess') = players s.
Proof. by repeat split. Qed.

Lemma timers_moved s m now chess' :
  timers (moved s m now chess')
  = switch_timers now (chess_turn chess') (timers s).
Proof. reflexivity. Qed.

Lemma in_step_moved s m now chess' : in_step (moved s m now chess') chess'.
Proof. apply in_step_endMove. Qed.

Lemma in_step_unmoved s m ms now chess' :
  in_step (unmoved s m ms now chess') chess'.
Proof. apply in_step_endMove. Qed.

(** C4 (amended).  Take a state in step with its engine whose identity map
    agrees with the move.  If the move is accepted, leaves the game going,
    and the clock has not run out when the undo is requested, then the
    undo restores exactly the prior identity map, board projection and
    turn, and restores the captured sets up to the order of their entries
    (exactly, when the captured piece type was not in the capturer's set
    before). *)
Theorem move_undo_roundtrip s from to promo t1 t2 chess m chess1 :
  in_step s chess →
  footprint_ok m (pieceUids s) = true →
  truthy_str (complete (reduce_checkTimers s t1 chess)) = false →
  chess_move chess from to promo = Some (m, chess1) →
  truthy_str
    (complete
       (reduce_checkTimers
          (fst (chessReducer s (move from to promo t1) chess)) t2 chess1))
  = false →
  chess_undo chess1 = Some (m, chess) →
  let s1 := fst (chessReducer s (move from to promo t1) chess) in
  let s2 := fst (chessReducer s1 (undo t2) chess1) in
  pieceUids s2 = pieceUids s
  ∧ board s2 = board s
  ∧ turn s2 = turn s
  ∧ (∀ c, side c (captured_by s2) ≡ₚ side c (captured_by s))
  ∧ (match captured m with
     | Some x => x ∉ side (color m) (captured_by s)
     | None => True
     end → captured_by s2 = captured_by s).
Proof.
  intros (Hboard & Hturn & _ & _) Hfp Hact1 Hmv Hact2 Hun. cbn zeta.
  cbn [chessReducer] in *.
  rewrite (reduce_move_accepted _ _ _ _ _ _ _ _ Hact1 Hmv) in *.
  cbn [fst] in *.
  destruct (moved_fields s m t1 chess1)
    as (Huids & Htracker & Hmoves & _ & Hcap & _).
  rewrite (reduce_undo_accepted _ _ _ _ _ _ Hact2 Hun Hmoves). cbn [fst].
  destruct (in_step_unmoved (moved s m t1 chess1) m
              (default [] (moves s) ++ [m]) t2 chess) as (Hb2 & Ht2 & _).
  destruct (unmoved_fields (moved s m t1 chess1) m
              (default [] (moves s) ++ [m]) t2 chess)
    as (Huids2 & _ & _ & _ & Hcap2 & _).
  assert (pieceUids
            (unmoved (moved s m t1 chess1) m (default [] (moves s) ++ [m])
               t2 chess) = pieceUids s) as Hrestored.
  { rewrite Huids2, Htracker, Huids, last_snoc. by apply untrack_track. }
  repeat split.
  - exact Hrestored.
  - by rewrite Hb2, Hrestored, Hboard.
  - by rewrite Ht2, Hturn.
  - intros c. rewrite Hcap2, Hcap.
    destruct (captured m) as [x|]; [|done].
    rewrite !side_set_side. case_decide; [subst|done].
    rewrite decide_True by done.
    rewrite remove_indexOf_first. apply remove_first_snoc.
  - intros Hfresh. rewrite Hcap2, Hcap.
    destruct (captured m) as [x|]; [|done].
    rewrite side_set_side, decide_True by done.
    rewrite remove_indexOf_first.
    rewrite (proj2 (remove_first_snoc _ _)) by done.
    destruct (color m), (captured_by s); reflexivity.
Qed.

(** *** Undo, then redo *)

Lemma checkTimers_with_redoStack s (r : list Move) now chess :
  reduce_checkTimers (with_redoStack r s) now chess
  = with_redoStack r (reduce_checkTimers s now chess).
Proof.
  rewrite !reduce_checkTimers_cases.
  change (expired (with_redoStack r s) now) with (expired s now).
  by destruct (expired s now).
Qed.

Lemma reduce_redo_accepted s now chess m m' chess' :
  truthy_str (complete (reduce_checkTimers s now chess)) = false →
  last (redoStack s) = Some m →
  chess_move chess (from m) (to m) (promotion m) = Some (m', chess') →
  reduce_redo s now chess
  = (with_redoStack (removelast (redoStack s))
       (moved (with_redoStack (removelast (redoStack s)) s) m' now chess'),
     chess').
Proof.
  intros Hact Hlast Hmv. unfold reduce_redo. rewrite Hact.
  pose proof Hact as (_ & Hsame & Hgoing)%checkTimers_active.
  rewrite Hsame, Hlast.
  rewrite (reduce_move_accepted _ _ _ _ _ _ m' chess'); [done| |done].
  by rewrite checkTimers_with_redoStack, Hsame.
Qed.

Lemma placed_ok_record m (update : option MoveUID) uids :
  placed_ok m update uids = true → ∃ u, update = Some u.
Proof.
  unfold placed_ok. intros Hok.
  apply andb_prop in Hok as [_ Hok].
  destruct (truthy_piece (captured m) || has_flag "e" (flags m)).
  - destruct update as [u|]; [by exists u | discriminate].
  - apply andb_prop in Hok as [->%bool_decide_eq_true _]. by eexists.
Qed.

(** C5 (amended).  Take a state in step with its engine whose last move
    [m] is accounted for in the history, the identity map, the undo
    records and the captured set.  If an undo is accepted and, the clock
    not having run out, a redo replays the move, then the redo takes the
    move from the top of the redo stack into the history, leaves the rest
    of the redo stack as it was, and reproduces the state before the undo
    in every field but the clocks; the captured sets are reproduced up to
    the order of their entries. *)
Theorem undo_redo_roundtrip s0 t1 t2 chess0 chess1 m ms :
  in_step s0 chess0 →
  moves s0 = Some ms →
  last ms = Some m →
  placed_ok m (last (pieceUidTracker s0)) (pieceUids s0) = true →
  recorded m s0 = true →
  truthy_str (complete (reduce_checkTimers s0 t1 chess0)) = false →
  chess_undo chess0 = Some (m, chess1) →
  truthy_str
    (complete
       (reduce_checkTimers (fst (chessReducer s0 (undo t1) chess0)) t2
          chess1)) = false →
  chess_move chess1 (from m) (to m) (promotion m) = Some (m, chess0) →
  let s1 := fst (chessReducer s0 (undo t1) chess0) in
  let s2 := fst (chessReducer s1 (redo t2) chess1) in
  redoStack s1 = redoStack s2 ++ [m]
  ∧ moves s2 = Some (default [] (moves s1) ++ [m])
  ∧ snd (chessReducer s1 (redo t2) chess1) = chess0
  ∧ same_up_to_clocks s2 s0.
Proof.
  intros (Hboard & Hturn & Hcheck & Hcomplete) Hms Hlast Hplaced Hrec
    Hact1 Hun Hact2 Hmv. cbn zeta. cbn [chessReducer] in *.
  rewrite (reduce_undo_accepted _ _ _ _ _ _ Hact1 Hun Hms) in *.
  cbn [fst] in *.
  destruct (unmoved_fields s0 m ms t1 chess1)
    as (Hu1 & Ht1 & Hm1 & Hr1 & Hc1 & _).
  assert (last (redoStack (unmoved s0 m ms t1 chess1)) = Some m) as Htop
    by (by rewrite Hr1, last_snoc).
  rewrite (reduce_redo_accepted _ _ _ _ _ _ Hact2 Htop Hmv). cbn [fst snd].
  rewrite Hr1, removelast_last.
  set (s1 := with_redoStack (redoStack s0) (unmoved s0 m ms t1 chess1)).
  destruct (moved_fields s1 m t2 chess0)
    as (Hu2 & Ht2 & Hm2 & _ & Hc2 & _).
  destruct (in_step_moved s1 m t2 chess0) as (Hb2 & Htn2 & Hck2 & Hcp2).
  destruct (placed_ok_record _ _ _ Hplaced) as [u Hu].
  rewrite Hu in Hplaced. apply track_untrack in Hplaced.
  assert (pieceUids (moved s1 m t2 chess0) = pieceUids s0) as Huids.
  { rewrite Hu2. change (pieceUids s1) with
      (pieceUids (unmoved s0 m ms t1 chess1)).
    by rewrite Hu1, Hu, Hplaced. }
  split; [reflexivity|]. split; [exact Hm2|]. split; [reflexivity|].
  unfold same_up_to_clocks.
  change (moves (with_redoStack ?r ?s)) with (moves s).
  change (pieceUids (with_redoStack ?r ?s)) with (pieceUids s).
  change (pieceUidTracker (with_redoStack ?r ?s)) with (pieceUidTracker s).
  change (board (with_redoStack ?r ?s)) with (board s).
  change (turn (with_redoStack ?r ?s)) with (turn s).
  change (check (with_redoStack ?r ?s)) with (check s).
  change (complete (with_redoStack ?r ?s)) with (complete s).
  change (fen (with_redoStack ?r ?s)) with (fen s).
  change (paused (with_redoStack ?r ?s)) with (paused s).
  change (players (with_redoStack ?r ?s)) with (players s).
  change (captured_by (with_redoStack ?r ?s)) with (captured_by s).
  repeat split.
  - rewrite Hm2. change (moves s1) with (moves (unmoved s0 m ms t1 chess1)).
    rewrite Hm1, Hms. cbn. f_equal. by apply last_removelast.
  - exact Huids.
  - rewrite Ht2.
    change (pieceUidTracker s1)
      with (pieceUidTracker (unmoved s0 m ms t1 chess1)).
    change (pieceUids s1) with (pieceUids (unmoved s0 m ms t1 chess1)).
    rewrite Ht1, Hu1, Hu, Hplaced. by apply last_removelast.
  - by rewrite Hb2, Huids, Hboard.
  - by rewrite Htn2, Hturn.
  - by rewrite Hck2, Hcheck.
  - by rewrite Hcp2, Hcomplete.
  - intros c. rewrite Hc2.
    change (captured_by s1) with (captured_by (unmoved s0 m ms t1 chess1)).
    rewrite Hc1. unfold recorded in Hrec.
    destruct (captured m) as [x|]; [|done].
    apply bool_decide_eq_true in Hrec.
    rewrite !side_set_side. case_decide; [subst|done].
    rewrite decide_True by done. rewrite remove_indexOf_first.
    rewrite <- (remove_first_perm x (side (color m) (captured_by s0))) at 2
      by done.
    by rewrite Permutation_app_comm.
Qed.

(** *** Remaining time *)

Lemma Qle_bool_false (x y : Q) : Qle_bool x y = false → (y < x)%Q.
Proof.
  intros Hf. apply Qnot_le_lt. intros Hle.
  apply Qle_bool_iff in Hle. congruence.
Qed.

Lemma timed_out_ok s chess : clocks_ok s → clocks_ok (timed_out s chess).
Proof.
  unfold clocks_ok, timers_ok, timed_out. cbn.
  intros (Hw & Hb & _).
  destruct (truthy_num (set (w (timers s)))),
    (truthy_num (set (b (timers s)))); repeat split; auto; lra.
Qed.

Lemma reduce_checkTimers_ok s now chess :
  clocks_ok s → clocks_ok (reduce_checkTimers s now chess).
Proof.
  rewrite reduce_checkTimers_cases.
  destruct (expired s now); auto using timed_out_ok.
Qed.

(** Switching after a time check that found the clock still running never
    subtracts more than what is left. *)
Lemma switch_timers_ok s now (t : Color) :
  clocks_ok s → expired s now = false →
  timers_ok (switch_timers now t (timers s)).
Proof.
  unfold clocks_ok, timers_ok, expired, watched.
  destruct (timers s) as [[ws wt] [bs bt]]. cbn.
  intros (Hw & Hb & Hone) Hexp.
  destruct t; cbn.
  - repeat split; auto.
    destruct (truthy_num bs) eqn:Hbs; [|assumption].
    destruct Hone as [-> | ->]; [|discriminate].
    cbn in Hexp. rewrite Hbs in Hexp.
    apply Qle_bool_false in Hexp. lra.
  - repeat split; auto.
    destruct (truthy_num ws) eqn:Hws; [|assumption].
    cbn in Hexp. rewrite Hws in Hexp.
    apply Qle_bool_false in Hexp. lra.
Qed.

Lemma timers_endMove s now chess :
  timers (reduce_endMove s now chess)
  = switch_timers now (chess_turn chess) (timers s).
Proof. reflexivity. Qed.

(** The clocks after an accepted move or undo are the switched clocks. *)
Lemma timers_move_accepted s from to promo now chess m chess' :
  truthy_str (complete (reduce_checkTimers s now chess)) = false →
  chess_move chess from to promo = Some (m, chess') →
  timers (fst (reduce_move s from to promo now chess))
  = switch_timers now (chess_turn chess') (timers s).
Proof.
  intros Hact Hmv. unfold reduce_move. rewrite Hact, Hmv.
  apply checkTimers_active in Hact as (_ & -> & _).
  destruct (track_move _ _), (captured m); reflexivity.
Qed.

Lemma reduce_move_ok s from to promo now chess :
  clocks_ok s → clocks_ok (fst (reduce_move s from to promo now chess)).
Proof.
  intros Hok.
  destruct (truthy_str (complete (reduce_checkTimers s now chess))) eqn:Hact.
  - unfold reduce_move. rewrite Hact. cbn.
    by apply reduce_checkTimers_ok.
  - destruct (chess_move chess from to promo) as [[m chess']|] eqn:Hmv.
    + unfold clocks_ok.
      rewrite (timers_move_accepted _ _ _ _ _ _ _ _ Hact Hmv).
      apply checkTimers_active in Hact as (Hexp & _ & _).
      by apply switch_timers_ok.
    + unfold reduce_move. rewrite Hact, Hmv.
      by apply checkTimers_active in Hact as (_ & -> & _).
Qed.

Lemma timers_undo_accepted s now chess m chess' ms :
  truthy_str (complete (reduce_checkTimers s now chess)) = false →
  chess_undo chess = Some (m, chess') →
  moves s = Some ms →
  timers (fst (reduce_undo s now chess))
  = switch_timers now (chess_turn chess') (timers s).
Proof.
  intros Hact Hun Hms. unfold reduce_undo. rewrite Hact, Hun.
  apply checkTimers_active in Hact as (_ & -> & _). rewrite Hms.
  destruct (captured m); reflexivity.
Qed.

Lemma reduce_undo_ok s now chess :
  clocks_ok s → clocks_ok (fst (reduce_undo s now chess)).
Proof.
  intros Hok.
  destruct (truthy_str (complete (reduce_checkTimers s now chess))) eqn:Hact.
  - unfold reduce_undo. rewrite Hact. by apply reduce_checkTimers_ok.
  - destruct (chess_undo chess) as [[m chess']|] eqn:Hun.
    + destruct (moves s) as [ms|] eqn:Hms.
      * unfold clocks_ok.
        rewrite (timers_undo_accepted _ _ _ _ _ _ Hact Hun Hms).
        apply checkTimers_active in Hact as (Hexp & _ & _).
        by apply switch_timers_ok.
      * unfold reduce_undo. rewrite Hact, Hun.
        apply checkTimers_active in Hact as (_ & -> & _).
        by rewrite Hms.
    + unfold reduce_undo. rewrite Hact, Hun.
      by apply checkTimers_active in Hact as (_ & -> & _).
Qed.

Lemma reduce_redo_ok s now chess :
  clocks_ok s → clocks_ok (fst (reduce_redo s now chess)).
Proof.
  intros Hok. unfold reduce_redo.
  destruct (truthy_str (complete (reduce_checkTimers s now chess))) eqn:Hact.
  - by apply reduce_checkTimers_ok.
  - apply checkTimers_active in Hact as (_ & -> & _).
    destruct (last (redoStack s)) as [m|]; [|assumption].
    pose proof (reduce_move_ok (with_redoStack (removelast (redoStack s)) s)
                  (from m) (to m) (promotion m) now chess Hok) as Hmv.
    destruct (reduce_move _ _ _ _ _ _) as [s' chess']. exact Hmv.
Qed.

Lemma chessReducer_ok s a chess :
  is_public a = true → clocks_ok s → clocks_ok (fst (chessReducer s a chess)).
Proof.
  destruct a; cbn; intros Hpub Hok;
    auto using reduce_move_ok, reduce_undo_ok, reduce_redo_ok,
      reduce_checkTimers_ok.
  discriminate.
Qed.

Lemma run_ok actions (se : ChessState * E) :
  forallb is_public actions = true →
  clocks_ok (fst se) → clocks_ok (fst (run actions se)).
Proof.
  revert se. induction actions as [|a actions IH]; intros se Hpub Hok.
  - exact Hok.
  - cbn in Hpub. apply andb_prop in Hpub as [Ha Hrest].
    apply (IH _ Hrest). by apply chessReducer_ok.
Qed.

(** C9.  In every state reached from a fresh game by transitions requested
    with non-decreasing times, neither side's stored remaining time is
    negative; and when [checkTimers] finds the clock run out, the running
    side's remaining time becomes exactly zero. *)
Theorem remaining_time_never_negative (length : Q) players chess0 actions :
  (0 <= length)%Q →
  forallb is_public actions = true →
  nondecreasing (omap action_time actions) = true →
  let s := fst (run actions (createChessState length players, chess0)) in
  (0 <= time (w (timers s)))%Q
  ∧ (0 <= time (b (timers s)))%Q
  ∧ ∀ now chess c,
      expired s now = true →
      truthy_num (set (side c (timers s))) = true →
      time (side c (timers (reduce_checkTimers s now chess))) = 0%Q.
Proof.
  intros Hlen Hpub _ s.
  assert (clocks_ok s) as (Hw & Hb & _).
  { apply run_ok; [assumption|].
    unfold clocks_ok, timers_ok. cbn. repeat split; auto; lra. }
  repeat split; [assumption..|].
  intros now chess c Hexp Hrun.
  rewrite reduce_checkTimers_cases, Hexp.
  destruct c; cbn in *; by rewrite Hrun.
Qed.

(** *** The clocks over the first two moves *)

Lemma truthy_num_nonzero (t : Q) : ¬ (t == 0)%Q → truthy_num (Some t) = true.
Proof.
  intros Hne. cbn. apply negb_true_iff.
  destruct (Qeq_bool t 0) eqn:Heq; [|done].
  by apply Qeq_bool_iff in Heq.
Qed.

(** C7 (amended).  In a game started with 5-minute clocks where White
    moves e2-e4 at a time [t1] other than 0 and Black moves e7-e5 2000 ms
    later, when Black's move commits Black's remaining time is
    300 - 2 = 298 s and White's is still 300 s; it is White's turn, with
    White's clock running and Black's stopped. *)
Theorem clocks_after_two_moves players (t1 : Q) m1 chess1 m2 chess2 :
  ¬ (t1 == 0)%Q →
  chess_move chess_new "e2" "e4" None = Some (m1, chess1) →
  chess_turn chess1 = Black →
  getCompleteFlag chess1 false = None →
  chess_move chess1 "e7" "e5" None = Some (m2, chess2) →
  chess_turn chess2 = White →
  let s2 :=
    fst (run [move "e2" "e4" None t1; move "e7" "e5" None (t1 + 2000)]
           (createChessState 5 players, chess_new)) in
  (time (b (timers s2)) == 298)%Q
  ∧ (time (w (timers s2)) == 300)%Q
  ∧ turn s2 = White
  ∧ set (w (timers s2)) = Some (t1 + 2000)%Q
  ∧ set (b (timers s2)) = None.
Proof.
  intros Ht1 Hmv1 Hturn1 Hgoing Hmv2 Hturn2. cbn zeta.
  unfold run. cbn [foldl fst snd chessReducer].
  assert (truthy_str
            (complete
               (reduce_checkTimers (createChessState 5 players) t1
                  chess_new)) = false) as Hact1 by reflexivity.
  rewrite (reduce_move_accepted _ _ _ _ _ _ _ _ Hact1 Hmv1).
  cbn [fst snd].
  set (s1 := moved (createChessState 5 players) m1 t1 chess1).
  assert (timers s1
          = mkByColor (mkTimer None (5 * 60)) (mkTimer (Some t1) (5 * 60)))
    as Htimers1.
  { unfold s1. rewrite timers_moved, Hturn1. reflexivity. }
  assert (expired s1 (t1 + 2000) = false) as Hexp.
  { unfold expired, watched. rewrite Htimers1.
    cbn [w b set time]. change (truthy_num None) with false.
    cbn [w b set time]. rewrite truthy_num_nonzero by done.
    unfold elapsed.
    destruct (Qle_bool _ _) eqn:Hle; [|done].
    apply Qle_bool_iff in Hle. exfalso. revert Hle.
    unfold Qdiv. change (/ 1000)%Q with (1 # 1000)%Q. lra. }
  assert (truthy_str (complete (reduce_checkTimers s1 (t1 + 2000) chess1))
          = false) as Hact2.
  { rewrite reduce_checkTimers_cases, Hexp.
    destruct (in_step_moved (createChessState 5 players) m1 t1 chess1)
      as (_ & _ & _ & Hc).
    unfold s1. by rewrite Hc, Hgoing. }
  rewrite (reduce_move_accepted _ _ _ _ _ _ _ _ Hact2 Hmv2). cbn [fst].
  rewrite timers_moved, Hturn2.
  destruct (in_step_moved s1 m2 (t1 + 2000) chess2) as (_ & -> & _).
  rewrite Hturn2.
  rewrite Htimers1. cbn [switch_timers w b set time].
  rewrite truthy_num_nonzero by done. unfold elapsed, Qdiv.
  change (/ 1000)%Q with (1 # 1000)%Q.
  repeat split; lra.
Qed.

End Properties.

(** * Concrete games *)

Section Games.
(** *** The concrete engine on known positions *)

Example ruy_lopez_position :
  chess_fen (snd (run ruy_lopez (fresh 5)))
  = "r1bqkb1r/1ppp1ppp/p1n2n2/4p3/B3P3/5N2/PPPP1PPP/RNBQ1RK1 b kq - 3 5".
Proof. vm_compute. reflexivity. Qed.

(** The en-passant field of the FEN is filled only when the capture can be
    made: not after 1. e4, but after 1. e4 a6 2. e5 d5. *)
Example en_passant_field :
  chess_fen (snd (run [move "e2" "e4" None 1000] (fresh 5)))
  = "rnbqkbnr/pppppppp/8/8/4P3/8/PPPP1PPP/RNBQKBNR b KQkq - 0 1"
  ∧ chess_fen (snd (run en_passant_game (fresh 5)))
    = "rnbqkbnr/1pp1pppp/p7/3pP3/8/8/PPPP1PPP/RNBQKBNR w KQkq d6 0 3".
Proof. split; vm_compute; reflexivity. Qed.

(** A position that begins with a double pawn push counts towards a
    repetition like any other: its third occurrence ends the game as a
    draw by repetition. *)
Example repetition_after_double_push :
  complete (fst (run (removelast knight_shuffle) (fresh 5))) = None
  ∧ complete (fst (run knight_shuffle (fresh 5))) = Some "dr".
Proof. split; vm_compute; reflexivity. Qed.

(** Castling moves the king's and the rook's identifiers, and an undo brings
    both home. *)
Example castling_identifiers :
  let uids := pieceUids (fst (run ruy_lopez (fresh 5))) in
  let uids' := pieceUids (fst (run (ruy_lopez ++ [undo 10000]) (fresh 5))) in
  (uids !! "g1", uids !! "f1", uids !! "e1", uids !! "h1")
  = (Some "60", Some "63", None, None)
  ∧ (uids' !! "g1", uids' !! "f1", uids' !! "e1", uids' !! "h1")
    = (None, None, Some "60", Some "63").
Proof. cbn zeta. split; vm_compute; reflexivity. Qed.

(** A mating move completes the game, and the undo after it is refused. *)
Example scholars_mate_is_final :
  let s := fst (run scholars_mate (fresh 5)) in
  let chess := snd (run scholars_mate (fresh 5)) in
  complete s = Some "c"
  ∧ fst (chessReducer s (undo 8000) chess) = s.
Proof.
  cbn zeta. split; [vm_compute; reflexivity|].
  unfold chessReducer, reduce_undo.
  replace (truthy_str _) with true by (vm_compute; reflexivity).
  cbn [fst]. apply checkTimers_not_expired. vm_compute. reflexivity.
Qed.

(** *** The claims on concrete games *)

(** C1.  After 1. e4 and an undo the redo stack holds e2-e4.  The engine
    rejects e2-e5, and the reducer returns the state with the redo stack
    emptied: the rejection is not a no-op. *)
Lemma illegal_move_clears_redo_stack :
  let s := fst (run takeback_game (fresh 5)) in
  let chess := snd (run takeback_game (fresh 5)) in
  chess_move chess "e2" "e5" None = None
  ∧ redoStack s = [e2e4]
  ∧ chessReducer s (move "e2" "e5" None 3000) chess
    = (with_redoStack [] s, chess)
  ∧ redoStack (fst (chessReducer s (move "e2" "e5" None 3000) chess)) = [].
Proof.
  cbn zeta.
  split; [vm_compute; reflexivity|].
  split; [vm_compute; reflexivity|].
  split; [|vm_compute; reflexivity].
  apply reduce_move_rejected; vm_compute; reflexivity.
Qed.

Ltac by_evaluation :=
  repeat match goal with |- _ ∧ _ => split end;
  vm_compute; reflexivity.

(** C2.  After 1. e4 a6 2. e5 d5 White captures en passant, e5xd6.  The
    captured pawn stands on d5 and carries identifier 11; the destination
    d6 is empty.  The undo record of the capture holds no identifier, and
    identifier 11 stays in the identity map on d5, a square the engine's
    board no longer has a piece on. *)
Lemma en_passant_taken_missing :
  let s := fst (run en_passant_game (fresh 5)) in
  let chess := snd (run en_passant_game (fresh 5)) in
  let s' := fst (chessReducer s (move "e5" "d6" None 5000) chess) in
  let chess' := snd (chessReducer s (move "e5" "d6" None 5000) chess) in
  chess_move chess "e5" "d6" None
  = Some (mkMove White "e5" "d6" Pawn (Some Pawn) None "e", chess')
  ∧ pieceUids s !! "d5" = Some "11"
  ∧ pieceUids s !! "d6" = None
  ∧ last (pieceUidTracker s') = Some (mkMoveUID None)
  ∧ pieceUids s' !! "d5" = Some "11"
  ∧ bool_decide ("d5" ∈ occupied_squares chess') = false.
Proof. cbn zeta. by_evaluation. Qed.

(** C3.  After the same en-passant capture the identity map holds 32
    distinct identifiers while the engine's board has 31 occupied
    squares: the captured pawn's identifier 11 is still mapped. *)
Lemma en_passant_breaks_bijection :
  let s' :=
    fst (run (en_passant_game ++ [move "e5" "d6" None 5000]) (fresh 5)) in
  let chess' :=
    snd (run (en_passant_game ++ [move "e5" "d6" None 5000]) (fresh 5)) in
  size (identifiers (pieceUids s')) = 32
  ∧ length (occupied_squares chess') = 31
  ∧ w (captured_by s') = [Pawn]
  ∧ bool_decide ("11" ∈ identifiers (pieceUids s')) = true.
Proof. cbn zeta. by_evaluation. Qed.

(** C4, counterexample.  White has captured a pawn, then a knight.  The
    move c6xb7 captures a pawn and is accepted; the undo right after it
    takes it back but leaves White's captured set as knight, pawn: not the
    prior set. *)
Lemma undo_reorders_captured_set :
  let s := fst (run captures_game (fresh 5)) in
  let s1 :=
    fst (run (captures_game ++ [move "c6" "b7" None 7000]) (fresh 5)) in
  let s2 :=
    fst (run (captures_game ++ [move "c6" "b7" None 7000; undo 8000])
           (fresh 5)) in
  moves s1
  = Some (default [] (moves s)
          ++ [mkMove White "c6" "b7" Pawn (Some Pawn) None "c"])
  ∧ moves s2 = moves s
  ∧ w (captured_by s) = [Pawn; Knight]
  ∧ w (captured_by s2) = [Knight; Pawn]
  ∧ captured_by s2 ≠ captured_by s.
Proof.
  cbn zeta.
  do 4 (split; [vm_compute; reflexivity|]).
  intros Heq. vm_compute in Heq. discriminate Heq.
Qed.

(** C5, counterexample.  In the same game, after c6xb7 White's captured
    set is pawn, knight, pawn.  An undo followed by a redo replays the move
    but leaves the set as knight, pawn, pawn: not the state before the
    undo. *)
Lemma redo_reorders_captured_set :
  let s0 :=
    fst (run (captures_game ++ [move "c6" "b7" None 7000]) (fresh 5)) in
  let s2 :=
    fst (run (captures_game
              ++ [move "c6" "b7" None 7000; undo 8000; redo 9000])
           (fresh 5)) in
  moves s2 = moves s0
  ∧ redoStack s2 = redoStack s0
  ∧ w (captured_by s0) = [Pawn; Knight; Pawn]
  ∧ w (captured_by s2) = [Knight; Pawn; Pawn]
  ∧ captured_by s2 ≠ captured_by s0.
Proof.
  cbn zeta.
  do 4 (split; [vm_compute; reflexivity|]).
  intros Heq. vm_compute in Heq. discriminate Heq.
Qed.

(** C6, counterexample.  With White's captured set pawn, knight, pawn, the
    last entry appended by c6xb7, undoing that move leaves knight, pawn:
    the entry removed is the first pawn, not the most recent one. *)
Lemma undo_removes_earliest_capture :
  let s :=
    fst (run (captures_game ++ [move "c6" "b7" None 7000]) (fresh 5)) in
  let s' :=
    fst (run (captures_game ++ [move "c6" "b7" None 7000; undo 8000])
           (fresh 5)) in
  w (captured_by s) = [Pawn; Knight] ++ [Pawn]
  ∧ w (captured_by s') = [Knight; Pawn]
  ∧ remove_last Pawn (w (captured_by s)) = [Pawn; Knight]
  ∧ w (captured_by s') ≠ remove_last Pawn (w (captured_by s)).
Proof.
  cbn zeta.
  do 3 (split; [vm_compute; reflexivity|]).
  intros Heq. vm_compute in Heq. discriminate Heq.
Qed.

(** C7, counterexample.  With White's move at t = 0 and Black's at
    t = 2000 ms, White still has 300 s when Black's move commits, and the
    clock running is White's, not Black's. *)
Lemma clock_scenario_fails :
  let s2 :=
    fst (run [move "e2" "e4" None 0; move "e7" "e5" None 2000] (fresh 5)) in
  (time (w (timers s2)) == 300)%Q
  ∧ (time (b (timers s2)) == 300)%Q
  ∧ turn s2 = White
  ∧ set (w (timers s2)) = Some 2000%Q
  ∧ set (b (timers s2)) = None
  ∧ ¬ scenario_as_specified s2.
Proof.
  cbn zeta.
  do 5 (split; [vm_compute; reflexivity|]).
  intros (_ & _ & Hrunning). vm_compute in Hrunning. discriminate Hrunning.
Qed.

(** *** The general theorems at concrete games *)

(** C10 at a fresh 5-minute game, one day after the page was opened. *)
Lemma checkTimers_before_start_witness :
  set (w (timers (fst (fresh 5)))) = None
  ∧ set (b (timers (fst (fresh 5)))) = None
  ∧ chessReducer (fst (fresh 5)) (checkTimers 86400000) ChessJs.new
    = (fst (fresh 5), ChessJs.new).
Proof.
  split; [reflexivity|]. split; [reflexivity|].
  apply checkTimers_before_start; reflexivity.
Defined.

(** C9 at [long_game]. *)
Lemma remaining_time_never_negative_witness :
  (0 <= 5)%Q
  ∧ forallb is_public long_game = true
  ∧ nondecreasing (omap action_time long_game) = true
  ∧ let s :=
      fst (run long_game (createChessState 5 default_players, ChessJs.new))
    in
    (0 <= time (w (timers s)))%Q
    ∧ (0 <= time (b (timers s)))%Q
    ∧ ∀ now chess c,
        expired s now = true →
        truthy_num (set (side c (timers s))) = true →
        time (side c (timers (reduce_checkTimers s now chess))) = 0%Q.
Proof.
  split; [vm_compute; discriminate|].
  split; [vm_compute; reflexivity|].
  split; [vm_compute; reflexivity|].
  apply (remaining_time_never_negative 5 default_players ChessJs.new
           long_game).
  - vm_compute; discriminate.
  - vm_compute; reflexivity.
  - vm_compute; reflexivity.
Defined.

(** C7 (amended) on the concrete engine with White's move at 1000 ms. *)
Lemma clocks_after_two_moves_witness :
  ¬ (1000 == 0)%Q
  ∧ let s2 :=
      fst (run [move "e2" "e4" None 1000; move "e7" "e5" None (1000 + 2000)]
             (createChessState 5 default_players, chess_new)) in
    (time (b (timers s2)) == 298)%Q
    ∧ (time (w (timers s2)) == 300)%Q
    ∧ turn s2 = White
    ∧ set (w (timers s2)) = Some (1000 + 2000)%Q
    ∧ set (b (timers s2)) = None.
Proof.
  split; [intros Heq; vm_compute in Heq; discriminate Heq|].
  apply (clocks_after_two_moves default_players 1000
           (mkMove White "e2" "e4" Pawn None None "b")
           (snd (run [move "e2" "e4" None 1000] (fresh 5)))
           (mkMove Black "e7" "e5" Pawn None None "b")
           (snd (run [move "e2" "e4" None 1000; move "e7" "e5" None 3000]
                   (fresh 5)))).
  - intros Heq; vm_compute in Heq; discriminate Heq.
  - vm_compute; reflexivity.
  - vm_compute; reflexivity.
  - vm_compute; reflexivity.
  - vm_compute; reflexivity.
  - vm_compute; reflexivity.
Defined.

(** C4 (amended) at 1. e4 d5 2. exd5, taken back a second later. *)
Lemma move_undo_roundtrip_witness :
  let s := fst (run exchange_game (fresh 5)) in
  let chess := snd (run exchange_game (fresh 5)) in
  let s1 := fst (chessReducer s (move "e4" "d5" None 3000) chess) in
  let chess1 := snd (chessReducer s (move "e4" "d5" None 3000) chess) in
  let s2 := fst (chessReducer s1 (undo 4000) chess1) in
  (chess_move chess "e4" "d5" None = Some (e4xd5, chess1)
   ∧ chess_undo chess1 = Some (e4xd5, chess)
   ∧ footprint_ok e4xd5 (pieceUids s) = true)
  ∧ (pieceUids s2 = pieceUids s
     ∧ board s2 = board s
     ∧ turn s2 = turn s
     ∧ (∀ c, side c (captured_by s2) ≡ₚ side c (captured_by s))
     ∧ (match captured e4xd5 with
        | Some x => x ∉ side (color e4xd5) (captured_by s)
        | None => True
        end → captured_by s2 = captured_by s)).
Proof.
  cbn zeta. split; [by_evaluation|].
  apply (move_undo_roundtrip
           (fst (run exchange_game (fresh 5))) "e4" "d5" None 3000 4000
           (snd (run exchange_game (fresh 5))) e4xd5
           (snd (chessReducer (fst (run exchange_game (fresh 5)))
                   (move "e4" "d5" None 3000)
                   (snd (run exchange_game (fresh 5)))))).
  - unfold in_step. by_evaluation.
  - vm_compute; reflexivity.
  - vm_compute; reflexivity.
  - vm_compute; reflexivity.
  - vm_compute; reflexivity.
  - vm_compute; reflexivity.
Defined.

(** C5 (amended) at 1. e4 d5 2. exd5, undone and then redone. *)
Lemma undo_redo_roundtrip_witness :
  let s0 :=
    fst (run (exchange_game ++ [move "e4" "d5" None 3000]) (fresh 5)) in
  let chess0 :=
    snd (run (exchange_game ++ [move "e4" "d5" None 3000]) (fresh 5)) in
  let s1 := fst (chessReducer s0 (undo 4000) chess0) in
  let chess1 := snd (chessReducer s0 (undo 4000) chess0) in
  let s2 := fst (chessReducer s1 (redo 5000) chess1) in
  (last (default [] (moves s0)) = Some e4xd5
   ∧ chess_undo chess0 = Some (e4xd5, chess1)
   ∧ chess_move chess1 "e4" "d5" None = Some (e4xd5, chess0)
   ∧ placed_ok e4xd5 (last (pieceUidTracker s0)) (pieceUids s0) = true
   ∧ recorded e4xd5 s0 = true)
  ∧ (redoStack s1 = redoStack s2 ++ [e4xd5]
     ∧ moves s2 = Some (default [] (moves s1) ++ [e4xd5])
     ∧ snd (chessReducer s1 (redo 5000) chess1) = chess0
     ∧ same_up_to_clocks s2 s0).
Proof.
  cbn zeta. split; [by_evaluation|].
  apply (undo_redo_roundtrip
           (fst (run (exchange_game ++ [move "e4" "d5" None 3000])
                   (fresh 5)))
           4000 5000
           (snd (run (exchange_game ++ [move "e4" "d5" None 3000])
                   (fresh 5)))
           (snd (chessReducer
                   (fst (run (exchange_game ++ [move "e4" "d5" None 3000])
                           (fresh 5)))
                   (undo 4000)
                   (snd (run (exchange_game ++ [move "e4" "d5" None 3000])
                           (fresh 5)))))
           e4xd5
           (default []
              (moves
                 (fst (run (exchange_game ++ [move "e4" "d5" None 3000])
                         (fresh 5)))))).
  - unfold in_step. by_evaluation.
  - vm_compute; reflexivity.
  - vm_compute; reflexivity.
  - vm_compute; reflexivity.
  - vm_compute; reflexivity.
  - vm_compute; reflexivity.
  - vm_compute; reflexivity.
  - vm_compute; reflexivity.
  - vm_compute; reflexivity.
Defined.

End Games.

(** * Beyond the claims *)

(** ** Coordinates and square names *)

Section Coordinates.

Lemma small_cases (x : Z) :
  (0 <= x < 8)%Z →
  x = 0%Z ∨ x = 1%Z ∨ x = 2%Z ∨ x = 3%Z ∨ x = 4%Z ∨ x = 5%Z ∨ x = 6%Z
  ∨ x = 7%Z.
Proof. lia. Qed.

(** X1.  A board coordinate inside the 8 x 8 grid survives the trip through
    its square name: [SquareToXY (XYtoSquare x y)] is [(x, y)]. *)
Theorem SquareToXY_XYtoSquare (x y : Z) :
  (0 <= x < 8)%Z → (0 <= y < 8)%Z →
  SquareToXY (XYtoSquare x y) = (x, Some y).
Proof.
  intros Hx%small_cases Hy%small_cases.
  repeat (destruct Hx as [-> | Hx]); try subst x;
    repeat (destruct Hy as [-> | Hy]); try subst y; reflexivity.
Qed.

Lemma file_index_cases (c : ascii) :
  (0 <= file_index (Some c))%Z →
  file_letter (file_index (Some c)) = String c EmptyString.
Proof.
  destruct c as [[] [] [] [] [] [] [] []]; vm_compute; try reflexivity;
    intros Hneg; exfalso; by apply Hneg.
Qed.

Lemma parseInt_char_cases (c : ascii) (d : Z) :
  parseInt_char (Some c) = Some d →
  (0 <= d <= 9)%Z ∧ pretty d = String c EmptyString.
Proof.
  unfold parseInt_char. cbv zeta. intros Heq.
  destruct (Nat.leb 48 (nat_of_ascii c) && Nat.leb (nat_of_ascii c) 57)
    eqn:Hdigit; [|discriminate Heq].
  apply andb_prop in Hdigit as [Hlo%Nat.leb_le Hhi%Nat.leb_le].
  injection Heq as <-. split; [lia|].
  rewrite <- (ascii_nat_embedding c).
  assert (∃ k, (k < 10)%nat ∧ nat_of_ascii c = (48 + k)%nat) as (k & Hk & ->)
    by (exists (nat_of_ascii c - 48)%nat; lia).
  do 10 (destruct k as [|k]; [reflexivity|]). lia.
Qed.

(** X2.  A two-character square name with a file letter from a to h and a
    digit survives the trip through its coordinates: when [SquareToXY]
    finds the file and reads a number, [XYtoSquare] gives the name back. *)
Theorem XYtoSquare_SquareToXY (sq : Square) (x y : Z) :
  String.length sq = 2%nat →
  SquareToXY sq = (x, Some y) →
  (0 <= x)%Z →
  XYtoSquare x y = sq.
Proof.
  destruct sq as [|c1 [|c2 [|]]]; try discriminate. intros _.
  unfold SquareToXY, XYtoSquare.
  change (String.get 0 (String c1 (String c2 EmptyString))) with (Some c1).
  change (String.get 1 (String c1 (String c2 EmptyString))) with (Some c2).
  intros [Hfile Hrow]%pair_equal_spec Hx. subst x.
  destruct (parseInt_char (Some c2)) as [d|] eqn:Hd; [|discriminate Hrow].
  injection Hrow as <-.
  rewrite (file_index_cases c1 Hx).
  apply parseInt_char_cases in Hd as [_ Hd].
  replace (8 - (8 - d))%Z with d by lia. by rewrite Hd.
Qed.

(** X3.  Whatever the string, the file coordinate [SquareToXY] returns lies
    between -1 and 7 and is -1 exactly when the first character is not a
    file letter; the row coordinate, when it is a number, lies between -1
    and 8, and it is not a number exactly when the second character is not
    a digit. *)
Theorem SquareToXY_bounds (sq : Square) :
  (-1 <= (SquareToXY sq).1 <= 7)%Z
  ∧ ((SquareToXY sq).1 = (-1)%Z
     ↔ ∀ c, String.get 0 sq = Some c →
            String.index 0 (String c EmptyString) "abcdefgh" = None)
  ∧ (∀ y, (SquareToXY sq).2 = Some y → (-1 <= y <= 8)%Z)
  ∧ ((SquareToXY sq).2 = None ↔ parseInt_char (String.get 1 sq) = None).
Proof.
  unfold SquareToXY. cbn [fst snd].
  split; [|split; [|split]].
  - unfold file_index. destruct (String.get 0 sq) as [c|]; [|lia].
    destruct c as [[] [] [] [] [] [] [] []]; vm_compute; split; discriminate.
  - unfold file_index. destruct (String.get 0 sq) as [c|].
    + destruct (String.index 0 (String c EmptyString) "abcdefgh") as [i|]
        eqn:Hi.
      * split; [lia|]. intros Hnone. specialize (Hnone c eq_refl).
        congruence.
      * split; [intros _ c' [= <-]; exact Hi | reflexivity].
    + split; [intros _ c' Hc'; discriminate Hc' | reflexivity].
  - intros y. destruct (String.get 1 sq) as [c|]; [|discriminate].
    destruct (parseInt_char (Some c)) as [d|] eqn:Hd; [|discriminate].
    apply parseInt_char_cases in Hd as [Hd _]. intros [= <-]. lia.
  - by destruct (parseInt_char (String.get 1 sq)).
Qed.

End Coordinates.

(** ** Invariants of the reducer *)

Section Invariants.
Context {E : Type} `{RulesEngine E}.
Implicit Types (s : ChessState) (chess : E) (now : Q).

(** What holds of the states a move can return holds after a move. *)
Lemma move_invariant (P : ChessState → Prop) :
  (∀ s chess, P s → P (timed_out s chess)) →
  (∀ s r, P s → P (with_redoStack r s)) →
  (∀ s m now chess', P s → P (moved s m now chess')) →
  ∀ s from to promo now chess,
    P s → P (fst (reduce_move s from to promo now chess)).
Proof.
  intros Hout Hredo Hmoved s from to promo now chess HP.
  destruct (truthy_str (complete (reduce_checkTimers s now chess))) eqn:Hact.
  - rewrite reduce_move_complete by done. cbn [fst].
    rewrite reduce_checkTimers_cases. destruct (expired s now); auto.
  - destruct (chess_move chess from to promo) as [[m chess']|] eqn:Hmv.
    + rewrite (reduce_move_accepted _ _ _ _ _ _ _ _ Hact Hmv). apply Hmoved, HP.
    + rewrite reduce_move_rejected by done. apply Hredo, HP.
Qed.

Lemma forward_invariant (P : ChessState → Prop) :
  (∀ s chess, P s → P (timed_out s chess)) →
  (∀ s r, P s → P (with_redoStack r s)) →
  (∀ s m now chess', P s → P (moved s m now chess')) →
  ∀ s a chess, is_forward a = true → P s → P (fst (chessReducer s a chess)).
Proof.
  intros Hout Hredo Hmoved s a chess Hfw HP.
  destruct a as [f t p now | now | now | ? | now | now]; try discriminate;
    cbn [chessReducer fst].
  - by apply move_invariant.
  - unfold reduce_redo.
    destruct (truthy_str (complete (reduce_checkTimers s now chess)))
      eqn:Hact.
    + cbn [fst]. rewrite reduce_checkTimers_cases.
      destruct (expired s now); auto.
    + apply checkTimers_active in Hact as (_ & -> & _).
      destruct (last (redoStack s)) as [m|]; [|exact HP].
      pose proof (move_invariant P Hout Hredo Hmoved
                    (with_redoStack (removelast (redoStack s)) s)
                    (from m) (to m) (promotion m) now chess
                    (Hredo _ _ HP)) as Hmv.
      destruct (reduce_move _ _ _ _ _ _) as [s' chess']. apply Hredo, Hmv.
  - exact HP.
  - rewrite reduce_checkTimers_cases. destruct (expired s now); auto.
Qed.

Lemma public_invariant (P : ChessState → Prop) :
  (∀ s chess, P s → P (timed_out s chess)) →
  (∀ s r, P s → P (with_redoStack r s)) →
  (∀ s m now chess', P s → P (moved s m now chess')) →
  (∀ s m ms now chess',
     P s → moves s = Some ms → P (unmoved s m ms now chess')) →
  ∀ s a chess, is_public a = true → P s → P (fst (chessReducer s a chess)).
Proof.
  intros Hout Hredo Hmoved Hunmoved s a chess Hpub HP.
  destruct (is_forward a) eqn:Hfw; [by apply forward_invariant|].
  destruct a as [f t p now | now | now | ? | now | now]; try discriminate.
  cbn [chessReducer].
  destruct (truthy_str (complete (reduce_checkTimers s now chess))) eqn:Hact.
  - unfold reduce_undo. rewrite Hact. cbn [fst].
    rewrite reduce_checkTimers_cases. destruct (expired s now); auto.
  - destruct (chess_undo chess) as [[m chess']|] eqn:Hun.
    + destruct (moves s) as [ms|] eqn:Hms.
      * rewrite (reduce_undo_accepted _ _ _ _ _ _ Hact Hun Hms).
        by apply Hunmoved.
      * unfold reduce_undo. rewrite Hact, Hun.
        apply checkTimers_active in Hact as (_ & -> & _). by rewrite Hms.
    + unfold reduce_undo. rewrite Hact, Hun.
      by apply checkTimers_active in Hact as (_ & -> & _).
Qed.

Lemma public_invariant_run (P : ChessState → Prop) :
  (∀ s a chess, is_public a = true → P s → P (fst (chessReducer s a chess))) →
  ∀ actions (se : ChessState * E),
    forallb is_public actions = true → P (fst se) → P (fst (run actions se)).
Proof.
  intros Hstep actions. induction actions as [|a actions IH]; intros se Hpub HP.
  - exact HP.
  - cbn in Hpub. apply andb_prop in Hpub as [Ha Hrest].
    apply (IH _ Hrest). by apply Hstep.
Qed.

(** *** Lists and maps once more *)

Lemma removelast_snoc_cases {A} (l : list A) :
  l = [] ∧ removelast l = [] ∨ ∃ l' x, l = l' ++ [x] ∧ removelast l = l'.
Proof.
  destruct l as [|y l _] using rev_ind; [by left|].
  right. exists l, y. by rewrite removelast_last.
Qed.

Lemma length_removelast {A} (l : list A) :
  length (removelast l) = pred (length l).
Proof.
  destruct (removelast_snoc_cases l) as [[-> ->] | (l' & x & -> & ->)];
    [reflexivity|].
  rewrite length_app. cbn. lia.
Qed.

Lemma Forall_removelast {A} (Q : A → Prop) (l : list A) :
  Forall Q l → Forall Q (removelast l).
Proof.
  destruct (removelast_snoc_cases l) as [[-> ->] | (l' & x & -> & ->)];
    [done|].
  by intros [? _]%Forall_app.
Qed.

Lemma relocate_value src dst (uids : gmap string string) k u :
  relocate src dst uids !! k = Some u → ∃ k', uids !! k' = Some u.
Proof.
  rewrite lookup_relocate.
  repeat case_decide; [discriminate | by exists src | by exists k].
Qed.

Lemma relocate_injective src dst (uids : gmap string string) :
  uids_injective uids → uids_injective (relocate src dst uids).
Proof.
  intros Hinj k1 k2 u. rewrite !lookup_relocate.
  repeat case_decide; subst; try done; intros Hk1 Hk2.
  all: pose proof (Hinj _ _ _ Hk1 Hk2); congruence.
Qed.

Lemma track_move_value m (uids : gmap string string) u :
  (∃ k, (track_move m uids).1 !! k = Some u)
  ∨ taken (track_move m uids).2 = Some u →
  ∃ k', uids !! k' = Some u.
Proof.
  unfold track_move.
  destruct (truthy_piece (captured m) || has_flag "e" (flags m));
    [|destruct (has_flag "k" (flags m));
      [|destruct (has_flag "q" (flags m))]];
    cbn; intros [[k Hk] | Htaken]; try discriminate;
    eauto using relocate_value.
  - apply relocate_value in Hk as [k' Hk']. eauto using relocate_value.
  - apply relocate_value in Hk as [k' Hk']. eauto using relocate_value.
Qed.

Lemma track_move_injective m (uids : gmap string string) :
  uids_injective uids → uids_injective (track_move m uids).1.
Proof.
  intros Hinj. unfold track_move.
  destruct (truthy_piece (captured m) || has_flag "e" (flags m));
    [|destruct (has_flag "k" (flags m));
      [|destruct (has_flag "q" (flags m))]];
    cbn; auto using relocate_injective.
Qed.

Lemma assign_value k' v (uids : gmap string string) k u :
  assign k' v uids !! k = Some u → v = Some u ∨ ∃ k'', uids !! k'' = Some u.
Proof. rewrite lookup_assign. case_decide; eauto. Qed.

Lemma untrack_move_value m (update : option MoveUID)
    (uids : gmap string string) k u :
  untrack_move m update uids !! k = Some u →
  (∃ k', uids !! k' = Some u) ∨ ∃ r, update = Some r ∧ taken r = Some u.
Proof.
  unfold untrack_move.
  destruct (truthy_piece (captured m) || has_flag "e" (flags m)).
  - assert (∀ k, assign (from m) (uids !! to m) uids !! k = Some u →
                 ∃ k', uids !! k' = Some u) as Hfirst.
    { intros k0 [Hv | Hv]%assign_value; eauto. }
    destruct update as [r|].
    + destruct (truthy_str (taken r)).
      * intros [Hv | [k' Hv]]%assign_value; eauto.
      * rewrite lookup_delete. case_decide; [discriminate|]. eauto.
    + rewrite lookup_delete. case_decide; [discriminate|]. eauto.
  - destruct (has_flag "k" (flags m)); [|destruct (has_flag "q" (flags m))];
      intros Hk; left.
    + apply relocate_value in Hk as [k' Hk']. eauto using relocate_value.
    + apply relocate_value in Hk as [k' Hk']. eauto using relocate_value.
    + eauto using relocate_value.
Qed.

(** *** What every reachable state satisfies *)

Lemma history_ok_step s a chess :
  is_public a = true → history_ok s → history_ok (fst (chessReducer s a chess)).
Proof.
  apply public_invariant.
  - intros s0 chess0 HP. exact HP.
  - intros s0 r HP. exact HP.
  - intros s0 m now chess' (ms & Hms & Hlen). unfold history_ok.
    destruct (moved_fields s0 m now chess') as (_ & -> & -> & _).
    rewrite Hms. eexists. split; [reflexivity|].
    cbn. rewrite !length_app, Hlen. reflexivity.
  - intros s0 m ms now chess' (ms' & Hms' & Hlen) Hms. unfold history_ok.
    destruct (unmoved_fields s0 m ms now chess') as (_ & -> & -> & _).
    eexists. split; [reflexivity|].
    rewrite !length_removelast. congruence.
Qed.

(** X4.  In every state reached from a fresh game by public transitions the
    move history is defined and the undo records are as many as the moves
    in the history. *)
Theorem history_and_records_in_step (length : Q) players chess0 actions :
  forallb is_public actions = true →
  history_ok (fst (run actions (createChessState length players, chess0))).
Proof.
  intros Hpub. apply (public_invariant_run history_ok); [|done|].
  - intros s a chess. apply history_ok_step.
  - exists []. by split.
Qed.

Lemma turn_holder_endMove s now chess :
  turn_holder_ok (reduce_endMove s now chess).
Proof.
  intros c. cbn. destruct (chess_turn chess), c; cbn;
    intros [Hset | Hcheck]; done.
Qed.

(** X5.  In every state reached from a fresh game by public transitions, a
    side that has a started clock or a raised check flag is the side to
    move: the clocks never run both, and the side that just moved is never
    flagged as in check. *)
Theorem only_turn_holder_is_timed (length : Q) players chess0 actions :
  forallb is_public actions = true →
  turn_holder_ok (fst (run actions (createChessState length players, chess0))).
Proof.
  intros Hpub. apply (public_invariant_run turn_holder_ok); [|done|].
  - intros s a chess. apply public_invariant.
    + intros s0 chess1 HP c [Hset | Hcheck].
      * by destruct c.
      * apply HP. by right.
    + intros s0 r HP. exact HP.
    + intros. apply turn_holder_endMove.
    + intros. apply turn_holder_endMove.
  - intros c [Hset | Hcheck]; by destruct c.
Qed.

(** X6.  No transition, public or internal, touches the stored FEN, the
    pause flag or the players: after any sequence of actions the state
    still carries the FEN of the starting position. *)
Theorem fen_is_never_updated (length : Q) (who : ByColor Player) chess0
    actions :
  let s := fst (run actions (createChessState length who, chess0)) in
  fen s = chess_fen chess_new ∧ paused s = false ∧ players s = who.
Proof.
  cbn zeta.
  set (P := fun s : ChessState =>
              fen s = chess_fen chess_new ∧ paused s = false
              ∧ players s = who).
  assert (∀ s a chess, P s → P (fst (chessReducer s a chess))) as Hstep.
  { intros s a chess HP.
    destruct (is_public a) eqn:Hpub.
    - revert HP. apply public_invariant; [| | | |done].
      + intros s0 chess1. apply id.
      + intros s0 r. apply id.
      + intros s0 m now chess'. apply id.
      + intros s0 m ms now chess' HP _. exact HP.
    - destruct a; try discriminate. exact HP. }
  assert (∀ (se : ChessState * E), P (fst se) → P (fst (run actions se)))
    as Hrun.
  { induction actions as [|a l IH]; intros se HP; [exact HP|].
    apply IH. by apply Hstep. }
  apply Hrun. by repeat split.
Qed.

(** *** The identity map at game start *)

Lemma initial_uids_fold (l : list (option EngineCell)) :
  let uids :=
    foldl (fun (m : gmap string string) '(i, key) =>
             match key with
             | None => m
             | Some c => <[square c := pretty (i : nat)]> m
             end) ∅ (imap (fun i key => (i, key)) l) in
  (∀ sq, is_Some (uids !! sq) ↔ sq ∈ square <$> omap id l)
  ∧ (∀ sq u, uids !! sq = Some u →
       ∃ i c, l !! i = Some (Some c) ∧ square c = sq ∧ u = pretty i).
Proof.
  induction l as [|x l IH] using rev_ind; cbn zeta.
  - cbn [imap foldl]. split.
    + intros sq. rewrite lookup_empty. cbn. split.
      * by intros [? ?].
      * by intros ?%elem_of_nil.
    + intros sq u. by rewrite lookup_empty.
  - destruct IH as [IHa IHb].
    rewrite imap_app, foldl_app. cbn [imap foldl].
    rewrite omap_app, fmap_app.
    destruct x as [c|]; cbn [omap list_omap id].
    + split.
      * intros sq. rewrite lookup_insert_is_Some, elem_of_app, IHa.
        cbn. rewrite list_elem_of_singleton.
        destruct (decide (square c = sq)); intuition congruence.
      * intros sq u. rewrite lookup_insert. case_decide.
        -- intros [= <-]. exists (length l + 0)%nat, c.
           split; [|done]. rewrite Nat.add_0_r. apply list_lookup_middle.
           done.
        -- intros (i & c' & Hi & ? & ?)%IHb. exists i, c'.
           split; [|done]. by apply lookup_app_l_Some.
    + split.
      * intros sq. rewrite IHa. cbn. by rewrite app_nil_r.
      * intros sq u (i & c' & Hi & ? & ?)%IHb. exists i, c'.
        split; [|done]. by apply lookup_app_l_Some.
Qed.

Lemma initial_uids_injective chess : uids_injective (initial_uids chess).
Proof.
  destruct (initial_uids_fold (concat (chess_board chess))) as [_ Hb].
  intros k1 k2 u (i1 & c1 & Hi1 & <- & ->)%Hb (i2 & c2 & Hi2 & <- & Heq)%Hb.
  apply (inj pretty) in Heq. subst i2. congruence.
Qed.

(** X7.  The identity map built at game start has an identifier on exactly
    the squares the engine's board has a piece on; every identifier is the
    decimal index, in the flattened board, of a cell with that square; and
    no identifier is on two squares. *)
Theorem initial_uids_cover chess :
  (∀ sq, is_Some (initial_uids chess !! sq) ↔ sq ∈ occupied_squares chess)
  ∧ (∀ sq u, initial_uids chess !! sq = Some u →
       ∃ i c, concat (chess_board chess) !! i = Some (Some c)
              ∧ square c = sq ∧ u = pretty i)
  ∧ uids_injective (initial_uids chess).
Proof.
  destruct (initial_uids_fold (concat (chess_board chess))) as [Ha Hb].
  split; [exact Ha|]. split; [exact Hb|]. apply initial_uids_injective.
Qed.

(** *** Identifiers are only ever relocated *)

Lemma ids_within_step (ids : gset string) s a chess :
  is_public a = true →
  ids_within ids s → ids_within ids (fst (chessReducer s a chess)).
Proof.
  apply public_invariant.
  - intros s0 chess0 HP. exact HP.
  - intros s0 r HP. exact HP.
  - intros s0 m now chess' [Hmap Hrec]. unfold ids_within.
    destruct (moved_fields s0 m now chess') as (-> & -> & _). split.
    + intros k u Hk.
      destruct (track_move_value m (pieceUids s0) u) as [k' Hk'];
        [left; by exists k | by apply (Hmap k')].
    + apply Forall_app. split; [exact Hrec|].
      apply Forall_singleton. intros u Hu.
      destruct (track_move_value m (pieceUids s0) u) as [k' Hk'];
        [by right | by apply (Hmap k')].
  - intros s0 m ms now chess' [Hmap Hrec] _. unfold ids_within.
    destruct (unmoved_fields s0 m ms now chess') as (-> & -> & _). split.
    + intros k u [[k' Hk'] | (r & Hlast & Hr)]%untrack_move_value.
      * by apply (Hmap k').
      * apply last_Some_elem_of in Hlast.
        rewrite Forall_forall in Hrec. by apply (Hrec r).
    + by apply Forall_removelast.
Qed.

(** X8.  No identifier is ever invented: in every state reached from a
    fresh game by public transitions, each identifier in the identity map
    and in the undo records is one of those assigned at game start. *)
Theorem identifiers_are_never_invented (length : Q) players chess0 actions :
  forallb is_public actions = true →
  ids_within (identifiers (initial_uids chess_new))
    (fst (run actions (createChessState length players, chess0))).
Proof.
  intros Hpub.
  apply (public_invariant_run (ids_within _)); [|done|].
  - intros s a chess. apply ids_within_step.
  - split; [|constructor].
    intros k u Hk. by apply (elem_of_map_img_2 _ k).
Qed.

(** X9.  Moves, redos, time checks and pauses never put one identifier on
    two squares: after any sequence of them from a fresh game the identity
    map is still one-to-one. *)
Theorem forward_play_keeps_identifiers_apart (length : Q) players chess0
    actions :
  forallb is_forward actions = true →
  uids_injective
    (pieceUids (fst (run actions (createChessState length players, chess0)))).
Proof.
  set (P := fun s : ChessState => uids_injective (pieceUids s)).
  assert (∀ l (se : ChessState * E),
             forallb is_forward l = true → P (fst se) → P (fst (run l se)))
    as Hrun.
  { induction l as [|a l IH]; intros se Hfw HP; [exact HP|].
    cbn in Hfw. apply andb_prop in Hfw as [Ha Hl].
    apply (IH _ Hl). revert HP. apply forward_invariant; [| | |done].
    - intros s chess. apply id.
    - intros s r. apply id.
    - intros s m now chess' HP. unfold P.
      destruct (moved_fields s m now chess') as (-> & _).
      by apply track_move_injective. }
  intros Hfw. apply Hrun; [done|].
  apply initial_uids_injective.
Qed.

End Invariants.

(** ** Edge behaviour of the transitions *)

Section Behaviour.
Context {E : Type} `{RulesEngine E}.
Implicit Types (s : ChessState) (chess : E) (now : Q).

Lemma checkTimers_timed_out s now chess chess' :
  reduce_checkTimers (timed_out s chess) now chess' = timed_out s chess.
Proof. reflexivity. Qed.

Lemma complete_timed_out s chess :
  truthy_str (complete (timed_out s chess)) = true.
Proof. apply getCompleteFlag_timed_out. Qed.

Lemma checkTimers_keeps_complete s now chess :
  truthy_str (complete s) = true →
  truthy_str (complete (reduce_checkTimers s now chess)) = true.
Proof.
  intros Hc. rewrite reduce_checkTimers_cases.
  destruct (expired s now); [apply complete_timed_out | exact Hc].
Qed.

(** X10.  A time check is idempotent, whichever engine handle the second
    check is given, and it changes nothing besides the clocks and the
    completion flag: every one of the other eleven fields is as it was. *)
Theorem checkTimers_idempotent s now chess chess' :
  let s' := reduce_checkTimers s now chess in
  reduce_checkTimers s' now chess' = s'
  ∧ (moves s', redoStack s', pieceUids s', pieceUidTracker s')
    = (moves s, redoStack s, pieceUids s, pieceUidTracker s)
  ∧ (captured_by s', board s', turn s', check s', fen s')
    = (captured_by s, board s, turn s, check s, fen s)
  ∧ (paused s', players s') = (paused s, players s).
Proof.
  cbn zeta. rewrite (reduce_checkTimers_cases s).
  destruct (expired s now) eqn:Hexp.
  - by rewrite checkTimers_timed_out.
  - by rewrite checkTimers_not_expired.
Qed.

(** X11.  Once the clock has run out, the state the time check returns is
    final: its completion flag starts with the out-of-time tag, and every
    public transition, at any time and with any engine handle, returns that
    state and that handle unchanged. *)
Theorem timeout_is_final s now chess (a : ChessAction) chess' :
  expired s now = true →
  is_public a = true →
  let s' := reduce_checkTimers s now chess in
  (∃ tags, complete s' = Some ("t" +:+ tags))
  ∧ chessReducer s' a chess' = (s', chess').
Proof.
  intros Hexp Hpub. cbn zeta. rewrite reduce_checkTimers_cases, Hexp. split.
  - unfold timed_out, with_timers, with_complete, getCompleteFlag. cbn.
    destruct (chess_isCheckmate chess), (chess_isDraw chess),
      (chess_isInsufficientMaterial chess),
      (chess_isThreefoldRepetition chess); eexists; reflexivity.
  - destruct a as [f t p t0 | t0 | t0 | ? | t0 | t0]; try discriminate;
      cbn [chessReducer]; [| | |reflexivity|reflexivity].
    + unfold reduce_move.
      by rewrite checkTimers_timed_out, complete_timed_out.
    + unfold reduce_undo.
      by rewrite checkTimers_timed_out, complete_timed_out.
    + unfold reduce_redo.
      by rewrite checkTimers_timed_out, complete_timed_out.
Qed.

(** X12.  Once the completion flag is set, a move, an undo or a redo does
    what a time check does and nothing else: the engine handle is not
    touched, the state stays complete, and history, redo stack, identity
    map, captured sets and board are as they were. *)
Theorem completed_game_is_frozen s (a : ChessAction) chess :
  truthy_str (complete s) = true →
  is_public a = true →
  let s' := fst (chessReducer s a chess) in
  snd (chessReducer s a chess) = chess
  ∧ s' = match a with
         | move _ _ _ t | undo t | redo t | checkTimers t =>
             reduce_checkTimers s t chess
         | pause _ | endMove _ => s
         end
  ∧ truthy_str (complete s') = true
  ∧ (moves s', redoStack s', pieceUids s', pieceUidTracker s')
    = (moves s, redoStack s, pieceUids s, pieceUidTracker s)
  ∧ (captured_by s', board s', turn s')
    = (captured_by s, board s, turn s).
Proof.
  intros Hc Hpub. cbn zeta.
  assert (∀ t,
    truthy_str (complete (reduce_checkTimers s t chess)) = true
    ∧ (moves (reduce_checkTimers s t chess),
       redoStack (reduce_checkTimers s t chess),
       pieceUids (reduce_checkTimers s t chess),
       pieceUidTracker (reduce_checkTimers s t chess))
      = (moves s, redoStack s, pieceUids s, pieceUidTracker s)
    ∧ (captured_by (reduce_checkTimers s t chess),
       board (reduce_checkTimers s t chess),
       turn (reduce_checkTimers s t chess))
      = (captured_by s, board s, turn s)) as Hcheck.
  { intros t. split; [by apply checkTimers_keeps_complete|].
    rewrite reduce_checkTimers_cases. by destruct (expired s t). }
  destruct a as [f t p t0 | t0 | t0 | ? | t0 | t0]; try discriminate;
    cbn [chessReducer].
  - unfold reduce_move. rewrite (proj1 (Hcheck t0)). cbn [fst snd].
    split; [done|]. split; [done|]. apply Hcheck.
  - unfold reduce_undo. rewrite (proj1 (Hcheck t0)). cbn [fst snd].
    split; [done|]. split; [done|]. apply Hcheck.
  - unfold reduce_redo. rewrite (proj1 (Hcheck t0)). cbn [fst snd].
    split; [done|]. split; [done|]. apply Hcheck.
  - cbn [fst snd]. by repeat split.
  - cbn [fst snd]. split; [done|]. split; [done|]. apply Hcheck.
Qed.

(** X13.  An undo when the engine has no move to take back does exactly
    what a time check does. *)
Theorem undo_with_nothing_to_undo s now chess :
  chess_undo chess = None →
  chessReducer s (undo now) chess = chessReducer s (checkTimers now) chess.
Proof.
  intros Hun. cbn [chessReducer]. unfold reduce_undo. rewrite Hun.
  by destruct (truthy_str (complete (reduce_checkTimers s now chess))).
Qed.

(** X14.  A redo on an empty redo stack does exactly what a time check
    does. *)
Theorem redo_with_empty_stack s now chess :
  redoStack s = [] →
  chessReducer s (redo now) chess = chessReducer s (checkTimers now) chess.
Proof.
  intros Hempty. cbn [chessReducer]. unfold reduce_redo.
  destruct (truthy_str (complete (reduce_checkTimers s now chess))) eqn:Hact;
    [reflexivity|].
  apply checkTimers_active in Hact as (_ & -> & _). by rewrite Hempty.
Qed.

(** X15.  A redo whose replay the engine rejects is not a no-op: the entry
    it took from the top of the redo stack is gone, everything else, the
    engine handle included, is as before. *)
Theorem rejected_redo_drops_entry s now chess m :
  truthy_str (complete (reduce_checkTimers s now chess)) = false →
  last (redoStack s) = Some m →
  chess_move chess (from m) (to m) (promotion m) = None →
  chessReducer s (redo now) chess
  = (with_redoStack (removelast (redoStack s)) s, chess).
Proof.
  intros Hact Hlast Hmv. cbn [chessReducer]. unfold reduce_redo.
  rewrite Hact.
  pose proof Hact as (_ & Hsame & Hgoing)%checkTimers_active.
  rewrite Hsame, Hlast.
  rewrite reduce_move_rejected; [reflexivity| |exact Hmv].
  by rewrite checkTimers_with_redoStack, Hsame.
Qed.

(** X16.  A move that passes the time check, accepted by the engine or not,
    leaves the redo stack empty, so that a redo requested next does what a
    time check does. *)
Theorem move_clears_redo_stack s from to promo now chess t2 :
  truthy_str (complete (reduce_checkTimers s now chess)) = false →
  let s1 := fst (chessReducer s (move from to promo now) chess) in
  let chess1 := snd (chessReducer s (move from to promo now) chess) in
  redoStack s1 = []
  ∧ chessReducer s1 (redo t2) chess1 = chessReducer s1 (checkTimers t2) chess1.
Proof.
  intros Hact. cbn zeta. cbn [chessReducer].
  assert (redoStack (fst (reduce_move s from to promo now chess)) = [])
    as Hempty.
  { destruct (chess_move chess from to promo) as [[m chess']|] eqn:Hmv.
    - by rewrite (reduce_move_accepted _ _ _ _ _ _ _ _ Hact Hmv).
    - by rewrite reduce_move_rejected. }
  split; [exact Hempty|].
  unfold reduce_redo.
  destruct (truthy_str (complete (reduce_checkTimers _ t2 _))) eqn:Hact2;
    [reflexivity|].
  apply checkTimers_active in Hact2 as (_ & -> & _). by rewrite Hempty.
Qed.

End Behaviour.

(** ** The identity bookkeeping and the board projection *)

Section Bookkeeping.
Context {E : Type} `{RulesEngine E}.
Implicit Types (s : ChessState) (chess : E) (now : Q).

Lemma distinct4_neq (k1 k2 k3 k4 : Square) :
  distinct4 k1 k2 k3 k4 = true →
  k1 ≠ k2 ∧ k1 ≠ k3 ∧ k1 ≠ k4 ∧ k2 ≠ k3 ∧ k2 ≠ k4 ∧ k3 ≠ k4.
Proof.
  unfold distinct4. intros Hd.
  repeat (apply andb_prop in Hd as [Hd ?%bool_decide_eq_true]).
  apply bool_decide_eq_true in Hd. done.
Qed.

Lemma castle_lookups k1 k2 k3 k4 (uids : gmap string string) :
  distinct4 k1 k2 k3 k4 = true →
  let uids' := relocate k3 k4 (relocate k1 k2 uids) in
  uids' !! k2 = uids !! k1
  ∧ uids' !! k4 = uids !! k3
  ∧ uids' !! k1 = None
  ∧ uids' !! k3 = None
  ∧ ∀ k, k ≠ k1 → k ≠ k2 → k ≠ k3 → k ≠ k4 → uids' !! k = uids !! k.
Proof.
  intros (H12 & H13 & H14 & H23 & H24 & H34)%distinct4_neq. cbn zeta.
  repeat split; [..|intros k ? ? ? ?]; rewrite !lookup_relocate;
    repeat (case_decide; subst; try done).
Qed.

(** X17.  Castling relocates exactly two identifiers: the king's goes from
    the move's source to its destination, the rook's from the corner to the
    square next to the king (h to f for the king side, a to d for the queen
    side, on the rank of the source); the two squares left are emptied, no
    other square changes, and no captured identifier is recorded. *)
Theorem castling_relocates_two m (uids : gmap string string) :
  truthy_piece (captured m) || has_flag "e" (flags m) = false →
  has_flag "k" (flags m) || has_flag "q" (flags m) = true →
  distinct4 (from m) (to m) (rook_squares m).1 (rook_squares m).2 = true →
  let uids' := (track_move m uids).1 in
  uids' !! to m = uids !! from m
  ∧ uids' !! (rook_squares m).2 = uids !! (rook_squares m).1
  ∧ uids' !! from m = None
  ∧ uids' !! (rook_squares m).1 = None
  ∧ (∀ k, k ≠ from m → k ≠ to m →
          k ≠ (rook_squares m).1 → k ≠ (rook_squares m).2 →
          uids' !! k = uids !! k)
  ∧ (track_move m uids).2 = mkMoveUID None.
Proof.
  intros Hquiet Hcastle. unfold track_move, rook_squares. rewrite Hquiet.
  destruct (has_flag "k" (flags m)); cbn [fst snd].
  - intros Hd. pose proof (castle_lookups _ _ _ _ uids Hd) as Hl.
    cbn zeta in Hl. by destruct Hl as (? & ? & ? & ? & ?).
  - cbn in Hcastle. rewrite Hcastle. cbn [fst snd].
    intros Hd. pose proof (castle_lookups _ _ _ _ uids Hd) as Hl.
    cbn zeta in Hl. by destruct Hl as (? & ? & ? & ? & ?).
Qed.

Lemma relocate_size src dst (uids : gmap string string) (a c : string) :
  src ≠ dst → uids !! src = Some a → uids !! dst = Some c →
  size (relocate src dst uids) + 1 = size uids.
Proof.
  intros Hne Hsrc Hdst.
  assert (relocate src dst uids = delete src (<[dst := a]> uids)) as ->
    by (unfold relocate; by rewrite Hsrc).
  rewrite map_size_delete_Some
    by (rewrite lookup_insert_ne by done; by eexists).
  rewrite map_size_insert_Some by (by eexists).
  assert (size uids ≠ 0) by (by apply (map_size_ne_0_lookup_2 _ src)).
  lia.
Qed.

(** X18.  An accepted capture of a piece standing on the destination takes
    exactly one identifier out of the identity map: the mover's identifier
    moves to the destination, the source is emptied, the captured
    identifier goes into the new undo record, one entry is appended to the
    mover's captured set, and, the map being one-to-one, the captured
    identifier is no longer on any square. *)
Theorem capture_removes_one_identifier s (src dst : Square) promo now chess m
    chess' (x : PieceSymbol) (mover victim : string) :
  truthy_str (complete (reduce_checkTimers s now chess)) = false →
  chess_move chess src dst promo = Some (m, chess') →
  captured m = Some x →
  from m ≠ to m →
  pieceUids s !! from m = Some mover →
  pieceUids s !! to m = Some victim →
  let s' := fst (chessReducer s (move src dst promo now) chess) in
  size (pieceUids s') + 1 = size (pieceUids s)
  ∧ pieceUids s' !! to m = Some mover
  ∧ pieceUids s' !! from m = None
  ∧ last (pieceUidTracker s') = Some (mkMoveUID (Some victim))
  ∧ side (color m) (captured_by s')
    = side (color m) (captured_by s) ++ [x]
  ∧ (uids_injective (pieceUids s) → ∀ k, pieceUids s' !! k ≠ Some victim).
Proof.
  intros Hact Hmv Hcap Hne Hfrom Hto. cbn zeta. cbn [chessReducer].
  rewrite (reduce_move_accepted _ _ _ _ _ _ _ _ Hact Hmv). cbn [fst].
  destruct (moved_fields s m now chess') as (-> & -> & _ & _ & -> & _).
  unfold track_move. rewrite Hcap. cbn [truthy_piece orb fst snd].
  rewrite last_snoc, Hto, side_set_side, decide_True by done.
  split; [|split; [|split; [|split; [done|split; [done|]]]]].
  - by apply (relocate_size _ _ _ mover victim).
  - rewrite lookup_relocate, decide_False, decide_True by done. exact Hfrom.
  - by rewrite lookup_relocate, decide_True.
  - intros Hinj k. rewrite lookup_relocate.
    repeat case_decide; subst; [done| |].
    + intros Hk. by pose proof (Hinj _ _ _ Hk Hto).
    + intros Hk. by pose proof (Hinj _ _ _ Hk Hto).
Qed.

Lemma lookup_map {A B} (f : A → B) (l : list A) (i : nat) :
  map f l !! i = f <$> (l !! i).
Proof.
  revert i. induction l as [|y l IH]; intros [|i]; cbn; auto.
Qed.

(** X19.  The board projection reads the identity map only at the squares
    the engine's board has a piece on: two identity maps that agree there
    give the same board, so an identifier left on an empty square never
    shows. *)
Theorem getBoard_reads_occupied_squares chess
    (uids uids' : gmap string string) :
  (∀ sq, sq ∈ occupied_squares chess → uids !! sq = uids' !! sq) →
  getBoard chess uids = getBoard chess uids'.
Proof.
  intros Hagree. unfold getBoard.
  apply map_ext_in. intros row Hrow.
  apply map_ext_in. intros [v|] Hv; [|reflexivity].
  f_equal. f_equal. apply Hagree. unfold occupied_squares.
  apply list_elem_of_fmap_2, list_elem_of_omap. exists (Some v).
  split; [|reflexivity].
  apply list_elem_of_In, in_concat. by exists row.
Qed.

(** The projected board has the shape of the engine's board, a cell
    holds a piece exactly where the engine's does, with the engine's type
    and colour and the identifier the identity map has for that square. *)
Lemma getBoard_cells chess (uids : gmap string string) (i j : nat) :
  length (getBoard chess uids) = length (chess_board chess)
  ∧ (getBoard chess uids !! i ≫= (.!! j))
    = (fun cell : option EngineCell =>
         (fun v => mkBoardCell (cell_type v) (cell_color v)
                     (uids !! square v)) <$> cell)
        <$> (chess_board chess !! i ≫= (.!! j)).
Proof.
  unfold getBoard. split; [apply length_map|].
  unfold Board. rewrite lookup_map.
  destruct (chess_board chess !! i) as [row|]; [|reflexivity]. cbn.
  rewrite lookup_map.
  by destruct (row !! j) as [[v|]|].
Qed.

End Bookkeeping.

(** ** The theorems above at concrete inputs *)

Section MoreGames.

Lemma SquareToXY_XYtoSquare_witness :
  ((0 <= 4 < 8)%Z ∧ (0 <= 3 < 8)%Z)
  ∧ XYtoSquare 4 3 = "e5"
  ∧ SquareToXY (XYtoSquare 4 3) = (4%Z, Some 3%Z).
Proof.
  split; [lia|]. split; [reflexivity|].
  apply SquareToXY_XYtoSquare; lia.
Defined.

Lemma XYtoSquare_SquareToXY_witness :
  SquareToXY "e5" = (4%Z, Some 3%Z) ∧ XYtoSquare 4 3 = "e5".
Proof.
  split; [reflexivity|].
  apply (XYtoSquare_SquareToXY "e5"); [reflexivity | reflexivity | lia].
Defined.

Lemma history_and_records_in_step_witness :
  forallb is_public long_game = true
  ∧ history_ok
      (fst (run long_game (createChessState 5 default_players, ChessJs.new))).
Proof.
  split; [vm_compute; reflexivity|].
  apply history_and_records_in_step. vm_compute. reflexivity.
Defined.

Lemma only_turn_holder_is_timed_witness :
  forallb is_public long_game = true
  ∧ turn_holder_ok
      (fst (run long_game (createChessState 5 default_players, ChessJs.new))).
Proof.
  split; [vm_compute; reflexivity|].
  apply only_turn_holder_is_timed. vm_compute. reflexivity.
Defined.

Lemma identifiers_are_never_invented_witness :
  forallb is_public long_game = true
  ∧ ids_within (identifiers (initial_uids (chess_new (E := ChessJs.Chess))))
      (fst (run long_game (createChessState 5 default_players, ChessJs.new))).
Proof.
  split; [vm_compute; reflexivity|].
  apply (identifiers_are_never_invented 5 default_players ChessJs.new).
  vm_compute. reflexivity.
Defined.

Lemma forward_play_keeps_identifiers_apart_witness :
  forallb is_forward forward_game = true
  ∧ uids_injective
      (pieceUids
         (fst (run forward_game
                 (createChessState 5 default_players, ChessJs.new)))).
Proof.
  split; [vm_compute; reflexivity|].
  apply forward_play_keeps_identifiers_apart. vm_compute. reflexivity.
Defined.

(** After 1. e4 at 1000 ms Black's clock runs; 400 s later it has run out,
    and a move requested after that changes nothing. *)
Lemma timeout_is_final_witness :
  let s := fst (run [move "e2" "e4" None 1000] (fresh 5)) in
  let chess := snd (run [move "e2" "e4" None 1000] (fresh 5)) in
  expired s 400000 = true
  ∧ chessReducer (reduce_checkTimers s 400000 chess)
      (move "e7" "e5" None 401000) chess
    = (reduce_checkTimers s 400000 chess, chess).
Proof.
  cbn zeta. split; [vm_compute; reflexivity|].
  apply (timeout_is_final
           (fst (run [move "e2" "e4" None 1000] (fresh 5))) 400000
           (snd (run [move "e2" "e4" None 1000] (fresh 5)))
           (move "e7" "e5" None 401000)
           (snd (run [move "e2" "e4" None 1000] (fresh 5)))).
  - vm_compute. reflexivity.
  - reflexivity.
Defined.

(** After scholar's mate the completion flag is set; an undo leaves the
    engine handle alone. *)
Lemma completed_game_is_frozen_witness :
  let s := fst (run scholars_mate (fresh 5)) in
  let chess := snd (run scholars_mate (fresh 5)) in
  truthy_str (complete s) = true
  ∧ snd (chessReducer s (undo 8000) chess) = chess.
Proof.
  cbn zeta. split; [vm_compute; reflexivity|].
  apply (completed_game_is_frozen
           (fst (run scholars_mate (fresh 5))) (undo 8000)
           (snd (run scholars_mate (fresh 5)))).
  - vm_compute. reflexivity.
  - reflexivity.
Defined.

Lemma undo_with_nothing_to_undo_witness :
  chess_undo ChessJs.new = None
  ∧ chessReducer (fst (fresh 5)) (undo 1000) ChessJs.new
    = chessReducer (fst (fresh 5)) (checkTimers 1000) ChessJs.new.
Proof.
  split; [reflexivity|].
  apply undo_with_nothing_to_undo. reflexivity.
Defined.

Lemma redo_with_empty_stack_witness :
  redoStack (fst (fresh 5)) = []
  ∧ chessReducer (fst (fresh 5)) (redo 1000) ChessJs.new
    = chessReducer (fst (fresh 5)) (checkTimers 1000) ChessJs.new.
Proof.
  split; [reflexivity|].
  apply redo_with_empty_stack. reflexivity.
Defined.

(** The redo stack holds e2-e4, but the handle passed in is the engine
    after 1. e4, where it is Black's move: the replay is rejected. *)
Lemma rejected_redo_drops_entry_witness :
  let s := fst (run takeback_game (fresh 5)) in
  let chess := snd (run [move "e2" "e4" None 1000] (fresh 5)) in
  (last (redoStack s) = Some e2e4
   ∧ chess_move chess "e2" "e4" None = None)
  ∧ chessReducer s (redo 3000) chess
    = (with_redoStack (removelast (redoStack s)) s, chess).
Proof.
  cbn zeta. split; [split; vm_compute; reflexivity|].
  apply (rejected_redo_drops_entry
           (fst (run takeback_game (fresh 5))) 3000
           (snd (run [move "e2" "e4" None 1000] (fresh 5))) e2e4).
  - vm_compute. reflexivity.
  - vm_compute. reflexivity.
  - vm_compute. reflexivity.
Defined.

(** After 1. e4 and an undo, 1. d4 empties the redo stack. *)
Lemma move_clears_redo_stack_witness :
  let s := fst (run takeback_game (fresh 5)) in
  let chess := snd (run takeback_game (fresh 5)) in
  redoStack s = [e2e4]
  ∧ redoStack (fst (chessReducer s (move "d2" "d4" None 3000) chess)) = [].
Proof.
  cbn zeta. split; [vm_compute; reflexivity|].
  apply (move_clears_redo_stack
           (fst (run takeback_game (fresh 5))) "d2" "d4" None 3000
           (snd (run takeback_game (fresh 5))) 4000).
  vm_compute. reflexivity.
Defined.

Lemma castling_relocates_two_witness :
  let uids := pieceUids (fst (fresh 5)) in
  rook_squares castle_kingside = ("h1", "f1")
  ∧ (track_move castle_kingside uids).1 !! "g1" = uids !! "e1"
  ∧ (track_move castle_kingside uids).1 !! "f1" = uids !! "h1".
Proof.
  cbn zeta. split; [reflexivity|].
  destruct (castling_relocates_two castle_kingside
              (pieceUids (fst (fresh 5))))
    as (Hking & Hrook & _); [reflexivity..|].
  split; [exact Hking | exact Hrook].
Defined.

(** 1. e4 d5 2. exd5: the pawn with identifier 52 takes the pawn with
    identifier 11. *)
Lemma capture_removes_one_identifier_witness :
  let s := fst (run exchange_game (fresh 5)) in
  let chess := snd (run exchange_game (fresh 5)) in
  let s' := fst (chessReducer s (move "e4" "d5" None 3000) chess) in
  (pieceUids s !! "e4" = Some "52" ∧ pieceUids s !! "d5" = Some "11")
  ∧ size (pieceUids s') + 1 = size (pieceUids s).
Proof.
  cbn zeta. split; [split; vm_compute; reflexivity|].
  apply (capture_removes_one_identifier
           (fst (run exchange_game (fresh 5))) "e4" "d5" None 3000
           (snd (run exchange_game (fresh 5))) e4xd5
           (snd (chessReducer (fst (run exchange_game (fresh 5)))
                   (move "e4" "d5" None 3000)
                   (snd (run exchange_game (fresh 5)))))
           Pawn "52" "11").
  - vm_compute. reflexivity.
  - vm_compute. reflexivity.
  - reflexivity.
  - discriminate.
  - vm_compute. reflexivity.
  - vm_compute. reflexivity.
Defined.

(** After the en-passant capture the identifier left on d5 does not show on
    the board: dropping it from the identity map gives the same board. *)
Lemma getBoard_reads_occupied_squares_witness :
  let s :=
    fst (run (en_passant_game ++ [move "e5" "d6" None 5000]) (fresh 5)) in
  let chess :=
    snd (run (en_passant_game ++ [move "e5" "d6" None 5000]) (fresh 5)) in
  getBoard chess (pieceUids s) = getBoard chess (delete "d5" (pieceUids s)).
Proof.
  cbn zeta. apply getBoard_reads_occupied_squares.
  intros sq Hsq. destruct (decide (sq = "d5")) as [->|Hne].
  - assert (bool_decide
              ("d5" ∈ occupied_squares
                 (snd (run (en_passant_game ++ [move "e5" "d6" None 5000])
                         (fresh 5)))) = false) as Hempty
      by (vm_compute; reflexivity).
    apply bool_decide_eq_false in Hempty. destruct (Hempty Hsq).
  - by rewrite lookup_delete_ne.
Defined.

End MoreGames.

(** ** When the automated opponent is asked *)

Section Provider.
Context {E : Type} `{RulesEngine E}.

(** X20.  The automated opponent is not asked for a move in the state an
    accepted undo returns, whoever is to move and whatever the
    configuration: the undone move sits on the redo stack.  Nor is it asked
    once the completion flag is set. *)
Theorem bot_waits_after_undo (s : ChessState) (now : Q) (chess : E) m chess'
    ms (config : option ChessConfig) (isAIThinking : bool) :
  truthy_str (complete (reduce_checkTimers s now chess)) = false →
  chess_undo chess = Some (m, chess') →
  moves s = Some ms →
  bot_is_due config (fst (chessReducer s (undo now) chess)) isAIThinking
  = false
  ∧ ∀ s', truthy_str (complete s') = true →
          bot_is_due config s' isAIThinking = false.
Proof.
  intros Hact Hun Hms. split.
  - cbn [chessReducer].
    rewrite (reduce_undo_accepted _ _ _ _ _ _ Hact Hun Hms). cbn [fst].
    unfold bot_is_due.
    destruct (unmoved_fields s m ms now chess') as (_ & _ & _ & -> & _).
    rewrite length_app. cbn [length].
    replace (Nat.eqb _ 0) with false
      by (symmetry; apply Nat.eqb_neq; lia).
    by rewrite andb_false_r.
  - intros s' Hc. unfold bot_is_due. rewrite Hc. apply andb_false_r.
Qed.

End Provider.

Section ProviderGames.

(** Black is the automated opponent; after 1. e4 it is due, after the undo
    of 1. e4 it is not. *)
Lemma bot_waits_after_undo_witness :
  let config := Some (mkChessConfig local bot EmptyString) in
  let s := fst (run [move "e2" "e4" None 1000] (fresh 5)) in
  let chess := snd (run [move "e2" "e4" None 1000] (fresh 5)) in
  bot_is_due config s false = true
  ∧ bot_is_due config (fst (chessReducer s (undo 2000) chess)) false = false.
Proof.
  cbn zeta. split; [vm_compute; reflexivity|].
  destruct (bot_waits_after_undo
              (fst (run [move "e2" "e4" None 1000] (fresh 5))) 2000
              (snd (run [move "e2" "e4" None 1000] (fresh 5)))
              e2e4 ChessJs.new [e2e4]
              (Some (mkChessConfig local bot EmptyString)) false)
    as [Hwaits _].
  - vm_compute. reflexivity.
  - vm_compute. reflexivity.
  - vm_compute. reflexivity.
  - exact Hwaits.
Defined.

End ProviderGames.
